(** * Piezo tone sequencer of the power board firmware (piezo.c)

    A shallow embedding of the driver: the ring buffer of tone samples,
    the ingestion call [piezo_recv], the 1 kHz scheduler [piezo_tick], the
    timer programming [configure_piezo_timer] and the start-up beeps
    [piezo_init_beep].

    C [unsigned int] and [uint32_t] values are integers of [Z] reduced
    modulo 2^32 wherever the C arithmetic can wrap; [uint16_t] fields are
    integers below 2^16 and bytes are integers below 2^8.  The peripheral
    library (GPIO, NVIC, TIM3) is outside the driver: each call is modelled
    by its effect on a small record of the registers it writes. *)

From Stdlib Require Import ZArith Lia Bool List.
From stdpp Require Import base list.
Import ListNotations.

Open Scope Z_scope.

(** ** Machine integers *)

Definition wrap32 (x : Z) : Z := x mod 4294967296.

(** The macro [MIN(x, y)] of the source: [((x) < (y)) ? (x) : (y)]. *)
Definition MIN (x y : Z) : Z := if x <? y then x else y.

(** ** Data *)

Record piezo_sample_t := mk_sample { freq : Z; duration : Z }.

(** Modelled from the spec: [PIEZO_BUFFER_LEN] is defined in piezo.h, which
    is not among the sources; the spec gives the capacity N = 32, and the
    comment in [piezo_init_beep] says the same. *)
Definition PIEZO_BUFFER_LEN : Z := 32.

(** [sizeof(piezo_sample_t)]: two 16-bit fields. *)
Definition sizeof_sample : Z := 4.

(** The registers the driver touches through the peripheral library. *)
Record hardware := mk_hw {
  pin_level : bool;        (* PIEZO_PORT / PIEZO_PIN output level *)
  nvic_tim3_irq : bool;    (* NVIC_TIM3_IRQ enabled in the NVIC *)
  tim3_prescaler : Z;
  tim3_period : Z;         (* value handed to timer_set_period *)
  tim3_counter : Z;
  tim3_sr : Z;             (* TIM_SR(TIM3) *)
  tim3_running : bool      (* timer_enable_counter *)
}.

(** The static variables of piezo.c.  [overrun] records, in order, every
    sample that a copy stored past the last element of [sample_buffer]
    (slot index and value).  C gives such a store no meaning: what it
    overwrites depends on where the build puts the other statics, and the
    model does not say.  A state is a state of the program only while
    [overrun] is empty; every statement below about the state after a call
    or a run either assumes that nothing was stored past the array or is
    about the stray stores themselves. *)
Record state := mk_state {
  sample_buffer : list piezo_sample_t;
  overrun : list (Z * piezo_sample_t);
  buffer_free_pos : Z;
  buffer_cur_pos : Z;
  elapsed_piezo_time : Z;
  piezo_duration : Z;
  hw : hardware
}.

Definition set_hw (h : hardware) (st : state) : state :=
  mk_state (sample_buffer st) (overrun st) (buffer_free_pos st)
           (buffer_cur_pos st) (elapsed_piezo_time st) (piezo_duration st) h.

Definition set_sample_buffer (b : list piezo_sample_t) (st : state) : state :=
  mk_state b (overrun st) (buffer_free_pos st)
           (buffer_cur_pos st) (elapsed_piezo_time st) (piezo_duration st) (hw st).

Definition set_overrun (o : list (Z * piezo_sample_t)) (st : state) : state :=
  mk_state (sample_buffer st) o (buffer_free_pos st)
           (buffer_cur_pos st) (elapsed_piezo_time st) (piezo_duration st) (hw st).

Definition set_buffer_free_pos (p : Z) (st : state) : state :=
  mk_state (sample_buffer st) (overrun st) p
           (buffer_cur_pos st) (elapsed_piezo_time st) (piezo_duration st) (hw st).

Definition set_buffer_cur_pos (p : Z) (st : state) : state :=
  mk_state (sample_buffer st) (overrun st) (buffer_free_pos st)
           p (elapsed_piezo_time st) (piezo_duration st) (hw st).

Definition set_elapsed_piezo_time (t : Z) (st : state) : state :=
  mk_state (sample_buffer st) (overrun st) (buffer_free_pos st)
           (buffer_cur_pos st) t (piezo_duration st) (hw st).

Definition set_piezo_duration (d : Z) (st : state) : state :=
  mk_state (sample_buffer st) (overrun st) (buffer_free_pos st)
           (buffer_cur_pos st) (elapsed_piezo_time st) d (hw st).

(** ** Peripheral calls *)

Definition nvic_disable_irq (st : state) : state :=
  let h := hw st in
  set_hw (mk_hw (pin_level h) false (tim3_prescaler h) (tim3_period h)
                (tim3_counter h) (tim3_sr h) (tim3_running h)) st.

Definition nvic_enable_irq (st : state) : state :=
  let h := hw st in
  set_hw (mk_hw (pin_level h) true (tim3_prescaler h) (tim3_period h)
                (tim3_counter h) (tim3_sr h) (tim3_running h)) st.

Definition timer_set_period (p : Z) (st : state) : state :=
  let h := hw st in
  set_hw (mk_hw (pin_level h) (nvic_tim3_irq h) (tim3_prescaler h) p
                (tim3_counter h) (tim3_sr h) (tim3_running h)) st.

Definition timer_set_counter (c : Z) (st : state) : state :=
  let h := hw st in
  set_hw (mk_hw (pin_level h) (nvic_tim3_irq h) (tim3_prescaler h) (tim3_period h)
                c (tim3_sr h) (tim3_running h)) st.

Definition write_tim3_sr (v : Z) (st : state) : state :=
  let h := hw st in
  set_hw (mk_hw (pin_level h) (nvic_tim3_irq h) (tim3_prescaler h) (tim3_period h)
                (tim3_counter h) v (tim3_running h)) st.

Definition gpio_toggle (st : state) : state :=
  let h := hw st in
  set_hw (mk_hw (negb (pin_level h)) (nvic_tim3_irq h) (tim3_prescaler h)
                (tim3_period h) (tim3_counter h) (tim3_sr h) (tim3_running h)) st.

(** [piezo_init]: pin low, TIM3 reset, prescaler 72, period 1, interrupt
    masked in the NVIC, counter running. *)
Definition piezo_init (st : state) : state :=
  set_hw (mk_hw false false 72 1 0 0 true) st.

Definition piezo_toggle (st : state) : state := gpio_toggle st.

Definition tim3_isr (st : state) : state := write_tim3_sr 0 (piezo_toggle st).

(** ** The ring buffer *)

(** Calculate the number of free samples in the ringbuffer. *)
Definition free_samples (st : state) : Z :=
  if buffer_free_pos st =? buffer_cur_pos st then PIEZO_BUFFER_LEN
  else if buffer_free_pos st <? buffer_cur_pos st then
    wrap32 (buffer_cur_pos st - buffer_free_pos st)
  else
    let tmp := wrap32 (buffer_free_pos st - buffer_cur_pos st) in
    wrap32 (PIEZO_BUFFER_LEN - tmp).

(** The wire format: each 4-byte group is a [piezo_sample_t] as the
    little-endian target lays it out, [freq] first. *)
Fixpoint samples_of_bytes (data : list Z) : list piezo_sample_t :=
  match data with
  | b0 :: b1 :: b2 :: b3 :: rest =>
      mk_sample (b0 + 256 * b1) (b2 + 256 * b3) :: samples_of_bytes rest
  | _ => []
  end.

(** [(uint8_t * )&samp]: the four bytes of a sample. *)
Definition bytes_of_sample (s : piezo_sample_t) : list Z :=
  [freq s mod 256; (freq s / 256) mod 256;
   duration s mod 256; (duration s / 256) mod 256].

(** One element store [sample_buffer[i] = s].  Inside the array it updates
    the slot.  At or past [PIEZO_BUFFER_LEN] the store is recorded in
    [overrun] and nothing else is changed: the record marks the state as
    one the program's text no longer determines, it does not describe the
    memory the store lands on. *)
Definition store_sample (i : Z) (s : piezo_sample_t) (st : state) : state :=
  if i <? PIEZO_BUFFER_LEN then
    set_sample_buffer (<[Z.to_nat i := s]> (sample_buffer st)) st
  else
    set_overrun (overrun st ++ [(i, s)]) st.

Fixpoint store_samples (i : Z) (l : list piezo_sample_t) (st : state) : state :=
  match l with
  | [] => st
  | s :: l' => store_samples (i + 1) l' (store_sample i s st)
  end.

(** [memcpy(&sample_buffer[pos], data, bytes)]: the first [bytes] bytes of
    [data], four by four, stored from slot [pos] on. *)
Definition memcpy_sample_buffer (pos : Z) (data : list Z) (bytes : Z)
    (st : state) : state :=
  store_samples pos (samples_of_bytes (take (Z.to_nat bytes) data)) st.

(** [sample_buffer[i]] as an rvalue; the driver only reads at
    [buffer_cur_pos], which is inside the array as long as nothing was
    stored past it. *)
Definition read_sample (i : Z) (st : state) : piezo_sample_t :=
  default (mk_sample 0 0) (sample_buffer st !! Z.to_nat i).

(** ** The square-wave generator *)

Definition configure_piezo_timer (ps : piezo_sample_t) (st : state) : state :=
  if freq ps =? 0 then
    (* Zero freq -> be silent. Simply don't toggle the piezo *)
    nvic_disable_irq st
  else
    let freq := MIN 10000 (freq ps) in
    let delay := wrap32 (1000000 / freq) in
    (* Toggle at twice that speed. *)
    let delay := delay / 2 in
    nvic_enable_irq
      (timer_set_counter 0
         (timer_set_period delay
            (write_tim3_sr 0 st))).

(** ** Ingestion *)

(** [piezo_recv(size, data)]: the result is the C return value paired with
    the state it leaves.  The three early exits return [true]; the path
    that copies returns [false]. *)
Definition piezo_recv (size : Z) (data : list Z) (st : state) : bool * state :=
  if size =? 0 then (true, st)
  else if negb (Z.land size 3 =? 0) then (true, st)
  else
    let incoming_samples := size / 4 in
    if incoming_samples >=? free_samples st then (true, st)
    else
      let '(data1, incoming1, st1) :=
        if buffer_free_pos st >? buffer_cur_pos st then
          let samples_at_back := wrap32 (PIEZO_BUFFER_LEN - buffer_free_pos st) in
          let samples_to_copy := MIN samples_at_back incoming_samples in
          let bytes := wrap32 (samples_to_copy * 4) in
          let st' := memcpy_sample_buffer (buffer_free_pos st) data bytes st in
          let free' := wrap32 (buffer_free_pos st' + samples_to_copy) in
          (drop (Z.to_nat bytes) data,
           wrap32 (incoming_samples - samples_to_copy),
           set_buffer_free_pos (free' mod PIEZO_BUFFER_LEN) st')
        else (data, incoming_samples, st) in
      let st2 :=
        if incoming1 >? 0 then
          let bytes := wrap32 (incoming1 * 4) in
          let st' := memcpy_sample_buffer (buffer_free_pos st1) data1 bytes st1 in
          let free' := wrap32 (buffer_free_pos st' + incoming1) in
          set_buffer_free_pos (free' mod PIEZO_BUFFER_LEN) st'
        else st1 in
      (false, st2).

(** ** The scheduler *)

Definition piezo_tick (st : state) : state :=
  if elapsed_piezo_time st <? piezo_duration st then
    (* Currently sounding something. Increase tick and carry on. *)
    set_elapsed_piezo_time (wrap32 (elapsed_piezo_time st + 1)) st
  else
    let st1 :=
      if elapsed_piezo_time st <=? wrap32 (piezo_duration st + 5) then
        (* 5ms silence *)
        nvic_disable_irq st
      else st in
    (* If there are no more samples, simply stop *)
    if buffer_free_pos st1 =? buffer_cur_pos st1 then
      set_piezo_duration 0 (set_elapsed_piezo_time 0 (nvic_disable_irq st1))
    else
      (* Otherwise, there must be one more sample to read. *)
      let ps := read_sample (buffer_cur_pos st1) st1 in
      let st2 := configure_piezo_timer ps st1 in
      let st3 := set_piezo_duration (duration ps) st2 in
      let st4 := set_elapsed_piezo_time 0 st3 in
      let cur' := wrap32 (buffer_cur_pos st4 + 1) in
      set_buffer_cur_pos (cur' mod PIEZO_BUFFER_LEN) st4.

(** ** Start-up beeps *)

(** In hertz, C arpeggio. *)
Definition fw_tones : list Z := [261; 196; 164; 130].

(** The body of the inner loop: one tone, one rest, each pumped in through
    [piezo_recv]; the return values are ignored. *)
Definition beep_once (tone_freq : Z) (st : state) : state :=
  let tone := bytes_of_sample (mk_sample tone_freq 150) in
  let st1 := snd (piezo_recv sizeof_sample tone st) in
  let rest := bytes_of_sample (mk_sample 0 15) in
  snd (piezo_recv sizeof_sample rest st1).

(** [for (j = 0; j < count; j++)]. *)
Fixpoint beep_times (count : nat) (tone_freq : Z) (st : state) : state :=
  match count with
  | O => st
  | S n => beep_times n tone_freq (beep_once tone_freq st)
  end.

(** [piezo_init_beep]; the macro [SR_DEV_REV] comes from the build and is
    taken as an argument. *)
Definition piezo_init_beep (SR_DEV_REV : Z) (st : state) : state :=
  let dev_rev := Z.land SR_DEV_REV 255 in
  let tone_count :=
    [Z.land dev_rev 3;
     Z.land (Z.shiftr dev_rev 2) 3;
     Z.land (Z.shiftr dev_rev 4) 3;
     Z.land (Z.shiftr dev_rev 6) 3] in
  fold_left
    (fun st i =>
       let count := nth (3 - i)%nat tone_count 0 in
       let tone_freq := nth (3 - i)%nat fw_tones 0 in
       beep_times (Z.to_nat count) tone_freq st)
    [0; 1; 2; 3]%nat st.

(** ** Runs of the driver *)

(** The state at reset: zeroed statics, then [piezo_init]. *)
Definition power_on : state :=
  piezo_init
    (mk_state (replicate (Z.to_nat PIEZO_BUFFER_LEN) (mk_sample 0 0)) [] 0 0 0 0
              (mk_hw false false 0 0 0 0 false)).

Inductive event :=
| Recv (size : Z) (data : list Z)
| Tick.

Definition step (st : state) (ev : event) : state :=
  match ev with
  | Recv size data => snd (piezo_recv size data st)
  | Tick => piezo_tick st
  end.

Definition run (evs : list event) (st : state) : state := fold_left step evs st.

(** ** Abstraction of the ring buffer *)

(** Cursors inside the array, array of the declared length. *)
Definition wf (st : state) : Prop :=
  0 <= buffer_free_pos st < PIEZO_BUFFER_LEN /\
  0 <= buffer_cur_pos st < PIEZO_BUFFER_LEN /\
  length (sample_buffer st) = Z.to_nat PIEZO_BUFFER_LEN.

(** Number of samples between the read cursor and the write cursor. *)
Definition occupancy (st : state) : Z :=
  (buffer_free_pos st - buffer_cur_pos st) mod PIEZO_BUFFER_LEN.

(** The samples waiting to be played, oldest first. *)
Definition queue_contents (st : state) : list piezo_sample_t :=
  map (fun k => read_sample ((buffer_cur_pos st + Z.of_nat k) mod PIEZO_BUFFER_LEN) st)
      (seq 0 (Z.to_nat (occupancy st))).

(** A sample as the wire format carries it: two fields below 2^16. *)
Definition is_sample (s : piezo_sample_t) : Prop :=
  0 <= freq s < 65536 /\ 0 <= duration s < 65536.

(** ** Observations on runs *)

(** The sample a tick takes out of the queue, if it takes one: the one it
    hands to [configure_piezo_timer] on the path that advances
    [buffer_cur_pos]. *)
Definition dequeued_by_tick (st : state) : option piezo_sample_t :=
  if elapsed_piezo_time st <? piezo_duration st then None
  else if buffer_free_pos st =? buffer_cur_pos st then None
  else Some (read_sample (buffer_cur_pos st) st).

(** A call the driver can receive: [size] is a [uint32_t] and [data] points
    to [size] bytes. *)
Definition event_ok (ev : event) : Prop :=
  match ev with
  | Recv size data => 0 <= size < 4294967296 /\ length data = Z.to_nat size
  | Tick => True
  end.

Inductive reachable : state -> Prop :=
| reachable_power_on : reachable power_on
| reachable_step st ev : reachable st -> event_ok ev -> reachable (step st ev).

(** Samples admitted by one call: those of the burst when [piezo_recv]
    returns [false], none otherwise. *)
Definition accepted_samples (st : state) (ev : event) : list piezo_sample_t :=
  match ev with
  | Recv size data => if fst (piezo_recv size data st) then [] else samples_of_bytes data
  | Tick => []
  end.

Definition played_samples (st : state) (ev : event) : list piezo_sample_t :=
  match ev with
  | Recv _ _ => []
  | Tick => match dequeued_by_tick st with Some ps => [ps] | None => [] end
  end.

Fixpoint enqueued (evs : list event) (st : state) : list piezo_sample_t :=
  match evs with
  | [] => []
  | ev :: evs' => accepted_samples st ev ++ enqueued evs' (step st ev)
  end.

Fixpoint played (evs : list event) (st : state) : list piezo_sample_t :=
  match evs with
  | [] => []
  | ev :: evs' => played_samples st ev ++ played evs' (step st ev)
  end.

(** Samples admitted and not yet taken out, counted along a run. *)
Definition occupied (evs : list event) (st : state) : Z :=
  Z.of_nat (length (enqueued evs st)) - Z.of_nat (length (played evs st)).

(** A call of [piezo_recv], as opposed to a tick. *)
Definition is_recv (ev : event) : Prop :=
  match ev with Recv _ _ => True | Tick => False end.

(** The bytes of a call are [uint8_t] values. *)
Definition is_byte (b : Z) : Prop := 0 <= b < 256.

Definition bytes_ok (ev : event) : Prop :=
  match ev with Recv _ data => Forall is_byte data | Tick => True end.

(** The playback counters: [elapsed_piezo_time] has not passed
    [piezo_duration], and every slot of the array holds a sample whose
    fields are 16-bit values. *)
Definition playing_ok (st : state) : Prop :=
  0 <= elapsed_piezo_time st <= piezo_duration st /\
  piezo_duration st < 65536 /\
  Forall is_sample (sample_buffer st).

(** ** The start-up sequence of the spec *)

(** One beep: the tone and the rest behind it. *)
Definition tone_and_rest (tone_freq : Z) : list piezo_sample_t :=
  [mk_sample tone_freq 150; mk_sample 0 15].

(** The sequence as the spec words it (section 4.4), to be compared with
    what [piezo_init_beep] puts in the queue: the revision byte [r] is split
    into four 2-bit fields; for each field, most significant first, as many
    (150 ms tone, 15 ms rest) pairs as the field's value, at the fixed
    frequency of the field's position. *)
Definition spec_startup_field (r : Z) (k : nat) : Z := (r / 4 ^ Z.of_nat k) mod 4.

Definition spec_startup_sequence (r : Z) : list piezo_sample_t :=
  flat_map
    (fun k => concat (repeat (tone_and_rest (nth k fw_tones 0))
                             (Z.to_nat (spec_startup_field r k))))
    [3; 2; 1; 0]%nat.

(** ** Scenarios *)

(** One sample {freq 440, duration 100} pumped into the queue at reset,
    and the tick that starts it. *)
Definition note_440 : list Z := bytes_of_sample (mk_sample 440 100).

Definition one_note_sounding : state :=
  piezo_tick (snd (piezo_recv 4 note_440 power_on)).

(** The same with a second sample {880, 50} behind the first. *)
Definition two_notes_sounding : state :=
  piezo_tick
    (snd (piezo_recv 8 (note_440 ++ bytes_of_sample (mk_sample 880 50)) power_on)).

(** Thirty samples of duration 0 pumped in at reset and taken out by thirty
    ticks: the queue is empty again and both cursors stand at slot 30. *)
Definition filler : list Z := flat_map bytes_of_sample (repeat (mk_sample 7 0) 30).

Definition near_end : state := run (Recv 120 filler :: repeat Tick 30) power_on.

(** A burst of five samples, numbered by their frequency. *)
Definition burst5 : list piezo_sample_t :=
  [mk_sample 1 0; mk_sample 2 0; mk_sample 3 0; mk_sample 4 0; mk_sample 5 0].

Definition burst5_bytes : list Z := flat_map bytes_of_sample burst5.

(** Thirty samples of duration 0 pumped in at reset, five of them played:
    the write cursor stands at slot 30, the read cursor at slot 5. *)
Definition wrapping : state := run (Recv 120 filler :: repeat Tick 5) power_on.

(** Ticks needed to play a list of samples: for each sample the tick that
    takes it out of the queue and one tick per millisecond of duration. *)
Definition play_ticks (l : list piezo_sample_t) : nat :=
  fold_right (fun s n => (S (Z.to_nat (duration s)) + n)%nat) 0%nat l.

(** Playing is over: nothing is queued and the current note has run its
    duration. *)
Definition played_out (st : state) : Prop :=
  queue_contents st = [] /\ piezo_duration st <= elapsed_piezo_time st.

(** Three samples pumped in at reset: 3 ms at 440 Hz, 2 ms of rest, 4 ms at
    880 Hz. *)
Definition three_notes : state :=
  snd (piezo_recv 12
         (flat_map bytes_of_sample
            [mk_sample 440 3; mk_sample 0 2; mk_sample 880 4]) power_on).

(** ** Basic facts *)

Ltac zsolve := repeat rewrite Z.land_ones in * by lia; Z.div_mod_to_equations; lia.

(** Closed goals on the scenarios, by evaluation. *)
Ltac by_eval := vm_compute; first [reflexivity | discriminate].

Ltac wf_by_eval :=
  unfold wf; split; [split; by_eval | split; [split; by_eval | by_eval]].

Lemma land_3_mod size : Z.land size 3 = size mod 4.
Proof. change 3 with (Z.ones 2). rewrite Z.land_ones by lia. reflexivity. Qed.

Lemma store_sample_cursors i s st :
  buffer_free_pos (store_sample i s st) = buffer_free_pos st /\
  buffer_cur_pos (store_sample i s st) = buffer_cur_pos st /\
  elapsed_piezo_time (store_sample i s st) = elapsed_piezo_time st /\
  piezo_duration (store_sample i s st) = piezo_duration st /\
  hw (store_sample i s st) = hw st /\
  length (sample_buffer (store_sample i s st)) = length (sample_buffer st).
Proof.
  unfold store_sample. destruct (i <? PIEZO_BUFFER_LEN); simpl;
    rewrite ?length_insert; auto 10.
Qed.

Lemma store_samples_cursors l : forall i st,
  buffer_free_pos (store_samples i l st) = buffer_free_pos st /\
  buffer_cur_pos (store_samples i l st) = buffer_cur_pos st /\
  elapsed_piezo_time (store_samples i l st) = elapsed_piezo_time st /\
  piezo_duration (store_samples i l st) = piezo_duration st /\
  hw (store_samples i l st) = hw st /\
  length (sample_buffer (store_samples i l st)) = length (sample_buffer st).
Proof.
  induction l as [|s l IH]; intros i st; simpl; [auto 10|].
  destruct (IH (i + 1) (store_sample i s st)) as (-> & -> & -> & -> & -> & ->).
  apply store_sample_cursors.
Qed.

Lemma memcpy_cursors pos data bytes st :
  buffer_free_pos (memcpy_sample_buffer pos data bytes st) = buffer_free_pos st /\
  buffer_cur_pos (memcpy_sample_buffer pos data bytes st) = buffer_cur_pos st /\
  elapsed_piezo_time (memcpy_sample_buffer pos data bytes st) = elapsed_piezo_time st /\
  piezo_duration (memcpy_sample_buffer pos data bytes st) = piezo_duration st /\
  hw (memcpy_sample_buffer pos data bytes st) = hw st /\
  length (sample_buffer (memcpy_sample_buffer pos data bytes st))
    = length (sample_buffer st).
Proof. apply store_samples_cursors. Qed.

Lemma memcpy_free_pos pos data bytes st :
  buffer_free_pos (memcpy_sample_buffer pos data bytes st) = buffer_free_pos st.
Proof. apply memcpy_cursors. Qed.

Lemma memcpy_cur_pos pos data bytes st :
  buffer_cur_pos (memcpy_sample_buffer pos data bytes st) = buffer_cur_pos st.
Proof. apply memcpy_cursors. Qed.

Lemma memcpy_elapsed pos data bytes st :
  elapsed_piezo_time (memcpy_sample_buffer pos data bytes st) = elapsed_piezo_time st.
Proof. apply memcpy_cursors. Qed.

Lemma memcpy_duration pos data bytes st :
  piezo_duration (memcpy_sample_buffer pos data bytes st) = piezo_duration st.
Proof. apply memcpy_cursors. Qed.

Lemma memcpy_hw pos data bytes st :
  hw (memcpy_sample_buffer pos data bytes st) = hw st.
Proof. apply memcpy_cursors. Qed.

Lemma memcpy_length pos data bytes st :
  length (sample_buffer (memcpy_sample_buffer pos data bytes st))
    = length (sample_buffer st).
Proof. apply memcpy_cursors. Qed.

Create Rewrite HintDb piezo.
#[export] Hint Rewrite memcpy_free_pos memcpy_cur_pos memcpy_elapsed
  memcpy_duration memcpy_hw memcpy_length : piezo.

Lemma wf_power_on : wf power_on.
Proof. unfold wf, PIEZO_BUFFER_LEN; simpl. repeat split; lia. Qed.

Lemma occupancy_range st : 0 <= occupancy st < PIEZO_BUFFER_LEN.
Proof. unfold occupancy, PIEZO_BUFFER_LEN. zsolve. Qed.

Lemma free_samples_occupancy st :
  wf st -> free_samples st = PIEZO_BUFFER_LEN - occupancy st.
Proof.
  intros (Hf & Hc & _). unfold free_samples, occupancy, wrap32, PIEZO_BUFFER_LEN in *.
  destruct (Z.eqb_spec (buffer_free_pos st) (buffer_cur_pos st)) as [->|Hne].
  - rewrite Z.sub_diag. reflexivity.
  - destruct (Z.ltb_spec (buffer_free_pos st) (buffer_cur_pos st)); zsolve.
Qed.

Lemma occupancy_zero st :
  wf st -> (occupancy st = 0 <-> buffer_free_pos st = buffer_cur_pos st).
Proof.
  intros (Hf & Hc & _). unfold occupancy, PIEZO_BUFFER_LEN in *. split; intros; zsolve.
Qed.


Lemma piezo_recv_wf st size data : wf st -> wf (snd (piezo_recv size data st)).
Proof.
  intros Hwf. unfold piezo_recv.
  destruct (size =? 0); [exact Hwf|].
  destruct (negb (Z.land size 3 =? 0)); [exact Hwf|].
  destruct (size / 4 >=? free_samples st); [exact Hwf|].
  destruct Hwf as (Hf & Hc & Hlen).
  unfold wf, PIEZO_BUFFER_LEN in *.
  destruct (buffer_free_pos st >? buffer_cur_pos st);
  match goal with |- context [if ?c then _ else _] => destruct c end;
    simpl; autorewrite with piezo; simpl; autorewrite with piezo;
    repeat split; try assumption; try lia;
    try (apply Z.mod_pos_bound; lia).
Qed.

(** ** The copy into the array *)

Lemma samples_of_bytes_take a : forall data,
  samples_of_bytes (take (4 * a) data) = take a (samples_of_bytes data).
Proof.
  induction a as [|a IH]; intros data; [reflexivity|].
  replace (4 * S a)%nat with (S (S (S (S (4 * a))))) by lia.
  destruct data as [|b0 [|b1 [|b2 [|b3 rest]]]]; try reflexivity.
  cbn [take samples_of_bytes]. f_equal. apply IH.
Qed.

Lemma samples_of_bytes_drop a : forall data,
  samples_of_bytes (drop (4 * a) data) = drop a (samples_of_bytes data).
Proof.
  induction a as [|a IH]; intros data; [reflexivity|].
  replace (4 * S a)%nat with (S (S (S (S (4 * a))))) by lia.
  destruct data as [|b0 [|b1 [|b2 [|b3 rest]]]]; try reflexivity.
  cbn [drop samples_of_bytes]. apply IH.
Qed.

Lemma samples_of_bytes_length n : forall data,
  length data = (4 * n)%nat -> length (samples_of_bytes data) = n.
Proof.
  induction n as [|n IH]; intros data Hlen.
  - destruct data; [reflexivity | discriminate].
  - replace (4 * S n)%nat with (S (S (S (S (4 * n))))) in Hlen by lia.
    destruct data as [|b0 [|b1 [|b2 [|b3 rest]]]]; try discriminate.
    cbn [samples_of_bytes length]. f_equal. apply IH. simpl in Hlen. lia.
Qed.

(** Encoding a sample as bytes and decoding it gives the sample back. *)
Lemma samples_of_bytes_of_sample s :
  is_sample s -> samples_of_bytes (bytes_of_sample s) = [s].
Proof.
  intros [Hf Hd]. destruct s as [f d]; simpl in *. f_equal. f_equal; zsolve.
Qed.

(** Inside the array a block store writes the block and nothing else. *)
Lemma store_samples_lookup l : forall i st (k : nat),
  0 <= i -> i + Z.of_nat (length l) <= PIEZO_BUFFER_LEN ->
  length (sample_buffer st) = Z.to_nat PIEZO_BUFFER_LEN ->
  sample_buffer (store_samples i l st) !! k =
    if decide (Z.to_nat i <= k < Z.to_nat i + length l)%nat
    then l !! (k - Z.to_nat i)%nat
    else sample_buffer st !! k.
Proof.
  unfold PIEZO_BUFFER_LEN.
  induction l as [|s l IH]; intros i st k Hi Hend Hlen.
  - simpl. case_decide; [lia | reflexivity].
  - cbn [store_samples length] in *.
    rewrite IH; [| lia | lia | ].
    2:{ destruct (store_sample_cursors i s st) as (_ & _ & _ & _ & _ & ->). exact Hlen. }
    unfold store_sample, PIEZO_BUFFER_LEN.
    destruct (Z.ltb_spec i 32) as [_|?]; [|lia]. simpl sample_buffer.
    repeat case_decide; try lia.
    + replace (k - Z.to_nat i)%nat with (S (k - Z.to_nat (i + 1))) by lia.
      reflexivity.
    + assert (k = Z.to_nat i) as -> by lia.
      rewrite Nat.sub_diag. simpl. apply list_lookup_insert_eq. lia.
    + apply list_lookup_insert_ne. lia.
Qed.

Lemma store_samples_overrun l : forall i st,
  i + Z.of_nat (length l) <= PIEZO_BUFFER_LEN ->
  overrun (store_samples i l st) = overrun st.
Proof.
  unfold PIEZO_BUFFER_LEN.
  induction l as [|s l IH]; intros i st Hend; [reflexivity|].
  cbn [store_samples length] in *. rewrite IH by lia.
  unfold store_sample, PIEZO_BUFFER_LEN.
  destruct (Z.ltb_spec i 32) as [_|?]; [reflexivity | lia].
Qed.

(** Past the end of the array every store is an overrun. *)
Lemma store_samples_overrun_past l : forall i st,
  PIEZO_BUFFER_LEN <= i ->
  overrun (store_samples i l st)
    = overrun st ++ imap (fun j s => (i + Z.of_nat j, s)) l /\
  sample_buffer (store_samples i l st) = sample_buffer st.
Proof.
  unfold PIEZO_BUFFER_LEN.
  induction l as [|s l IH]; intros i st Hi.
  - simpl. rewrite app_nil_r. auto.
  - cbn [store_samples]. destruct (IH (i + 1) (store_sample i s st)) as [-> ->]; [lia|].
    unfold store_sample, PIEZO_BUFFER_LEN.
    destruct (Z.ltb_spec i 32) as [?|_]; [lia|]. simpl.
    rewrite <- app_assoc. simpl. split; [|reflexivity].
    do 2 f_equal; [f_equal; lia|].
    apply imap_ext. intros j x _. simpl. f_equal. lia.
Qed.

Lemma samples_of_bytes_take_length a data :
  (4 * a <= length data)%nat -> length (take a (samples_of_bytes data)) = a.
Proof.
  intros Hdata. rewrite <- samples_of_bytes_take.
  apply samples_of_bytes_length. rewrite length_take. lia.
Qed.

Lemma memcpy_overrun pos data (a : nat) bytes st :
  bytes = Z.of_nat (4 * a) ->
  pos + Z.of_nat a <= PIEZO_BUFFER_LEN ->
  overrun (memcpy_sample_buffer pos data bytes st) = overrun st.
Proof.
  intros -> Hend. unfold memcpy_sample_buffer.
  rewrite Nat2Z.id, samples_of_bytes_take.
  apply store_samples_overrun. rewrite length_take. lia.
Qed.

Lemma memcpy_lookup pos data (a : nat) bytes st (k : nat) :
  bytes = Z.of_nat (4 * a) ->
  0 <= pos -> pos + Z.of_nat a <= PIEZO_BUFFER_LEN ->
  (4 * a <= length data)%nat ->
  length (sample_buffer st) = Z.to_nat PIEZO_BUFFER_LEN ->
  sample_buffer (memcpy_sample_buffer pos data bytes st) !! k =
    if decide (Z.to_nat pos <= k < Z.to_nat pos + a)%nat
    then samples_of_bytes data !! (k - Z.to_nat pos)%nat
    else sample_buffer st !! k.
Proof.
  intros -> Hpos Hend Hdata Hlen. unfold memcpy_sample_buffer.
  rewrite Nat2Z.id, samples_of_bytes_take.
  pose proof (samples_of_bytes_take_length a data Hdata) as Hla.
  rewrite store_samples_lookup by (try assumption; lia).
  rewrite Hla. case_decide; [|reflexivity].
  apply lookup_take_lt. lia.
Qed.


(** ** The queue as a list *)




(** A block store of [length l] samples at slot [i] overruns the array by
    as many samples as it has slots at or past [PIEZO_BUFFER_LEN]. *)
Lemma store_samples_overrun_length l : forall i st,
  Z.of_nat (length (overrun (store_samples i l st)))
    = Z.of_nat (length (overrun st))
      + Z.max 0 (i + Z.of_nat (length l) - Z.max i PIEZO_BUFFER_LEN).
Proof.
  unfold PIEZO_BUFFER_LEN.
  induction l as [|s l IH]; intros i st; cbn [store_samples length]; [lia|].
  rewrite IH. unfold store_sample, PIEZO_BUFFER_LEN.
  destruct (Z.ltb_spec i 32); simpl; rewrite ?length_app; simpl; lia.
Qed.

Lemma memcpy_overrun_le pos data bytes st :
  (length (overrun st) <= length (overrun (memcpy_sample_buffer pos data bytes st)))%nat.
Proof.
  unfold memcpy_sample_buffer.
  pose proof (store_samples_overrun_length
                (samples_of_bytes (take (Z.to_nat bytes) data)) pos st). lia.
Qed.

Lemma map_seq_lookup {A} (f : nat -> A) (l : list A) : forall start,
  (forall j, (j < length l)%nat -> l !! j = Some (f (start + j)%nat)) ->
  map f (seq start (length l)) = l.
Proof.
  induction l as [|x l IH]; intros start H; [reflexivity|].
  simpl. f_equal.
  - specialize (H 0%nat ltac:(simpl; lia)). simpl in H.
    rewrite Nat.add_0_r in H. congruence.
  - apply IH. intros j Hj. specialize (H (S j) ltac:(simpl; lia)).
    simpl in H. rewrite H. f_equal. f_equal. lia.
Qed.

(** ** An admitted burst *)

Section accepted_burst.

(** A call that passes the three tests of [piezo_recv]: cursors inside the
    array, a length that is a positive multiple of 4, fewer samples than
    [free_samples]. *)
Variables (st : state) (size : Z) (data : list Z).
Hypothesis Hwf : wf st.
Hypothesis Hsize : 0 < size < 4294967296.
Hypothesis Hland : Z.land size 3 = 0.
Hypothesis Hfit : size / 4 < free_samples st.

(** What [piezo_recv] does to the cursors when it takes the copying path. *)
Lemma piezo_recv_cursors :
  let st' := snd (piezo_recv size data st) in
  fst (piezo_recv size data st) = false /\
  buffer_free_pos st' = (buffer_free_pos st + size / 4) mod PIEZO_BUFFER_LEN /\
  buffer_cur_pos st' = buffer_cur_pos st /\
  elapsed_piezo_time st' = elapsed_piezo_time st /\
  piezo_duration st' = piezo_duration st /\
  hw st' = hw st /\
  length (sample_buffer st') = length (sample_buffer st).
Proof using Hwf Hsize Hland Hfit.
  pose proof (free_samples_occupancy st Hwf) as Hfs.
  pose proof (occupancy_range st) as Hocc.
  destruct Hwf as (Hf & Hc & Hlen).
  unfold piezo_recv.
  destruct (Z.eqb_spec size 0) as [?|_]; [lia|].
  rewrite Hland. simpl negb. cbv iota.
  destruct (Z.geb_spec (size / 4) (free_samples st)) as [?|_]; [lia|].
  unfold occupancy, PIEZO_BUFFER_LEN, wrap32, MIN in *.
  destruct (Z.gtb_spec (buffer_free_pos st) (buffer_cur_pos st)) as [Hgt|Hle].
  - destruct (Z.ltb_spec ((32 - buffer_free_pos st) mod 4294967296) (size / 4)) as [Hlt|Hge].
    + destruct (Z.gtb_spec ((size / 4 - (32 - buffer_free_pos st) mod 4294967296)
                              mod 4294967296) 0) as [?|?];
        simpl; autorewrite with piezo; simpl; autorewrite with piezo;
        repeat split; try reflexivity; zsolve.
    + destruct (Z.gtb_spec ((size / 4 - size / 4) mod 4294967296) 0) as [?|?];
        simpl; autorewrite with piezo; simpl; autorewrite with piezo;
        repeat split; try reflexivity; zsolve.
  - destruct (Z.gtb_spec (size / 4) 0) as [?|?];
      simpl; autorewrite with piezo; repeat split; try reflexivity; zsolve.
Qed.

Lemma occupancy_after_recv :
  occupancy (snd (piezo_recv size data st)) = occupancy st + size / 4.
Proof using Hwf Hsize Hland Hfit.
  pose proof (free_samples_occupancy st Hwf) as Hfs.
  pose proof (occupancy_range st) as Hocc.
  destruct piezo_recv_cursors as (_ & Hfp & Hcp & _).
  destruct Hwf as (Hf & Hc & _).
  unfold occupancy, PIEZO_BUFFER_LEN in *. rewrite Hfp, Hcp. zsolve.
Qed.

(** From here on [data] holds the [size] bytes the call announces. *)
Hypothesis Hdata : length data = Z.to_nat size.

Lemma piezo_recv_buffer :
  (buffer_free_pos st = buffer_cur_pos st ->
   buffer_free_pos st + size / 4 <= PIEZO_BUFFER_LEN) ->
  let st' := snd (piezo_recv size data st) in
  overrun st' = overrun st /\
  forall k, 0 <= k < PIEZO_BUFFER_LEN ->
    sample_buffer st' !! Z.to_nat k =
      if (k - buffer_free_pos st) mod PIEZO_BUFFER_LEN <? size / 4
      then samples_of_bytes data !! Z.to_nat ((k - buffer_free_pos st) mod PIEZO_BUFFER_LEN)
      else sample_buffer st !! Z.to_nat k.
Proof using Hwf Hsize Hland Hfit Hdata.
  intros Hroom.
  pose proof (free_samples_occupancy st Hwf) as Hfs.
  pose proof (occupancy_range st) as Hocc.
  rewrite land_3_mod in Hland.
  destruct Hwf as (Hf & Hc & Hlen).
  unfold piezo_recv.
  destruct (Z.eqb_spec size 0) as [?|_]; [lia|].
  rewrite land_3_mod, Hland. simpl negb. cbv iota.
  destruct (Z.geb_spec (size / 4) (free_samples st)) as [?|_]; [lia|].
  set (n := size / 4) in *.
  set (fp := buffer_free_pos st) in *.
  set (cp := buffer_cur_pos st) in *.
  unfold occupancy, wrap32, MIN in *. fold fp cp in Hfs, Hocc.
  assert (Hn : size = 4 * n) by (subst n; zsolve).
  change PIEZO_BUFFER_LEN with 32 in Hf, Hc, Hfs, Hocc, Hroom |- *.
  destruct (Z.gtb_spec fp cp) as [Hgt|Hle].
  - replace ((32 - fp) mod 4294967296) with (32 - fp) by zsolve.
    destruct (Z.ltb_spec (32 - fp) n) as [Hlt|Hge].
    + (* the burst reaches the end of the array and continues at slot 0 *)
      replace ((n - (32 - fp)) mod 4294967296) with (n - (32 - fp)) by zsolve.
      destruct (Z.gtb_spec (n - (32 - fp)) 0) as [_|?]; [|lia].
      cbn [snd]. simpl buffer_free_pos. autorewrite with piezo. fold fp.
      replace ((fp + (32 - fp)) mod 4294967296 mod 32) with 0 by zsolve.
      simpl.
      set (a1 := Z.to_nat (32 - fp)). set (a2 := Z.to_nat (n - (32 - fp))).
      replace (Z.to_nat (((32 - fp) * 4) mod 4294967296)) with (4 * a1)%nat
        by (subst a1; zsolve).
      split.
      * rewrite (memcpy_overrun _ _ a2) by (unfold PIEZO_BUFFER_LEN; subst a2; zsolve).
        simpl overrun.
        apply (memcpy_overrun _ _ a1); unfold PIEZO_BUFFER_LEN; subst a1; zsolve.
      * intros k Hk.
        rewrite (memcpy_lookup _ _ a2);
          [ | subst a2; zsolve | lia | unfold PIEZO_BUFFER_LEN; subst a2; zsolve
            | rewrite length_drop; subst a1 a2; zsolve
            | simpl; autorewrite with piezo; exact Hlen ].
        simpl sample_buffer.
        rewrite (memcpy_lookup _ _ a1);
          [ | subst a1; zsolve | lia | unfold PIEZO_BUFFER_LEN; subst a1; zsolve
            | subst a1; zsolve | exact Hlen ].
        rewrite samples_of_bytes_drop, lookup_drop.
        destruct (Z.ltb_spec ((k - fp) mod 32) n); repeat case_decide;
          try reflexivity; try (exfalso; subst a1 a2; zsolve);
          f_equal; subst a1 a2; zsolve.
    + (* the burst fits behind the write cursor *)
      replace ((n - n) mod 4294967296) with 0 by zsolve.
      cbn [snd Z.gtb Z.compare].
      set (a1 := Z.to_nat n).
      simpl. split.
      * apply (memcpy_overrun _ _ a1); unfold PIEZO_BUFFER_LEN; subst a1; zsolve.
      * intros k Hk.
        rewrite (memcpy_lookup _ _ a1);
          [ | subst a1; zsolve | lia | unfold PIEZO_BUFFER_LEN; subst a1; zsolve
            | subst a1; zsolve | exact Hlen ].
        destruct (Z.ltb_spec ((k - fp) mod 32) n); repeat case_decide;
          try reflexivity; try (exfalso; subst a1; zsolve);
          f_equal; subst a1; zsolve.
  - destruct (Z.gtb_spec n 0) as [_|?]; [|lia].
    set (a1 := Z.to_nat n).
    simpl. split.
    * apply (memcpy_overrun _ _ a1); unfold PIEZO_BUFFER_LEN; subst a1; zsolve.
    * intros k Hk.
      rewrite (memcpy_lookup _ _ a1);
          [ | subst a1; zsolve | lia | unfold PIEZO_BUFFER_LEN; subst a1; zsolve
            | subst a1; zsolve | exact Hlen ].
      destruct (Z.ltb_spec ((k - fp) mod 32) n); repeat case_decide;
          try reflexivity; try (exfalso; subst a1; zsolve);
          f_equal; subst a1; zsolve.
Qed.

(** An accepted burst that is copied inside the array is appended to the
    queue.  The side condition excludes the one case in which the copy
    leaves the array: an empty queue whose cursors are too close to the
    end of the array for the burst. *)
Lemma piezo_recv_enqueues :
  (buffer_free_pos st = buffer_cur_pos st ->
   buffer_free_pos st + size / 4 <= PIEZO_BUFFER_LEN) ->
  queue_contents (snd (piezo_recv size data st))
    = queue_contents st ++ samples_of_bytes data.
Proof using Hwf Hsize Hland Hfit Hdata.
  intros Hroom.
  pose proof (free_samples_occupancy st Hwf) as Hfs.
  pose proof (occupancy_range st) as Hocc.
  pose proof occupancy_after_recv as Hocc'.
  destruct piezo_recv_cursors as (_ & Hfp & Hcp & _).
  destruct (piezo_recv_buffer Hroom) as (_ & Hbuf).
  assert (Hall : length (samples_of_bytes data) = Z.to_nat (size / 4)).
  { apply samples_of_bytes_length. rewrite Hdata, land_3_mod in *. zsolve. }
  assert (Hnpos : 0 < size / 4) by (rewrite land_3_mod in Hland; zsolve).
  destruct Hwf as (Hf & Hc & Hlen).
  unfold queue_contents. rewrite Hocc', Hcp.
  unfold occupancy, PIEZO_BUFFER_LEN in *.
  set (n := size / 4) in *. set (fp := buffer_free_pos st) in *.
  set (cp := buffer_cur_pos st) in *.
  set (occ := (fp - cp) mod 32) in *.
  replace (Z.to_nat (occ + n)) with (Z.to_nat occ + Z.to_nat n)%nat by lia.
  rewrite seq_app, map_app. f_equal.
  - apply map_ext_in. intros k Hk. apply in_seq in Hk.
    unfold read_sample. rewrite Hbuf by zsolve.
    destruct (Z.ltb_spec ((((cp + Z.of_nat k) mod 32) - fp) mod 32) n);
      [exfalso; subst occ; zsolve | reflexivity].
  - rewrite <- Hall. apply map_seq_lookup. intros j Hj.
    unfold read_sample. rewrite Hbuf by zsolve.
    replace (((cp + Z.of_nat (0 + Z.to_nat occ + j)) mod 32 - fp) mod 32)
      with (Z.of_nat j) by (subst occ; zsolve).
    destruct (Z.ltb_spec (Z.of_nat j) n); [|lia].
    rewrite Nat2Z.id.
    destruct (lookup_lt_is_Some_2 (samples_of_bytes data) j Hj) as [x Hx].
    rewrite Hx. reflexivity.
Qed.

(** The copy that leaves the array: the queue is empty, the cursors are
    closer to the end of the array than the burst is long, and the single
    [memcpy] of the second branch runs past the last slot. *)
Lemma piezo_recv_overruns :
  buffer_free_pos st = buffer_cur_pos st ->
  PIEZO_BUFFER_LEN < buffer_free_pos st + size / 4 ->
  Z.of_nat (length (overrun (snd (piezo_recv size data st))))
    = Z.of_nat (length (overrun st))
      + (buffer_free_pos st + size / 4 - PIEZO_BUFFER_LEN).
Proof using Hwf Hsize Hland Hfit Hdata.
  intros Heq Hpast. destruct Hwf as (Hf & Hc & Hlen).
  rewrite land_3_mod in Hland.
  unfold piezo_recv.
  destruct (Z.eqb_spec size 0) as [?|_]; [lia|].
  rewrite land_3_mod, Hland. simpl negb. cbv iota.
  destruct (Z.geb_spec (size / 4) (free_samples st)) as [?|_]; [lia|].
  destruct (Z.gtb_spec (buffer_free_pos st) (buffer_cur_pos st)) as [?|_]; [lia|].
  destruct (Z.gtb_spec (size / 4) 0) as [_|?]; [|unfold PIEZO_BUFFER_LEN in *; lia].
  simpl. unfold memcpy_sample_buffer, wrap32.
  rewrite store_samples_overrun_length.
  replace (Z.to_nat ((size / 4 * 4) mod 4294967296)) with (4 * Z.to_nat (size / 4))%nat
    by zsolve.
  rewrite samples_of_bytes_take, samples_of_bytes_take_length by (rewrite Hdata; zsolve).
  unfold PIEZO_BUFFER_LEN in *. zsolve.
Qed.

End accepted_burst.

(** ** The scheduler, case by case *)

Lemma configure_piezo_timer_queue ps st :
  sample_buffer (configure_piezo_timer ps st) = sample_buffer st /\
  overrun (configure_piezo_timer ps st) = overrun st /\
  buffer_free_pos (configure_piezo_timer ps st) = buffer_free_pos st /\
  buffer_cur_pos (configure_piezo_timer ps st) = buffer_cur_pos st /\
  elapsed_piezo_time (configure_piezo_timer ps st) = elapsed_piezo_time st /\
  piezo_duration (configure_piezo_timer ps st) = piezo_duration st.
Proof. unfold configure_piezo_timer. destruct (freq ps =? 0); simpl; auto 10. Qed.

Lemma piezo_tick_sounding st :
  elapsed_piezo_time st < piezo_duration st ->
  piezo_tick st = set_elapsed_piezo_time (wrap32 (elapsed_piezo_time st + 1)) st.
Proof.
  intros H. unfold piezo_tick.
  destruct (Z.ltb_spec (elapsed_piezo_time st) (piezo_duration st)); [reflexivity | lia].
Qed.

(** A tick that finds the note over and the queue empty stops: interrupt
    masked, both counters cleared, cursors and array untouched. *)
Lemma piezo_tick_empty st :
  piezo_duration st <= elapsed_piezo_time st ->
  buffer_free_pos st = buffer_cur_pos st ->
  let st' := piezo_tick st in
  nvic_tim3_irq (hw st') = false /\
  elapsed_piezo_time st' = 0 /\ piezo_duration st' = 0 /\
  buffer_free_pos st' = buffer_free_pos st /\
  buffer_cur_pos st' = buffer_cur_pos st /\
  sample_buffer st' = sample_buffer st /\ overrun st' = overrun st.
Proof.
  intros H Heq. unfold piezo_tick.
  destruct (Z.ltb_spec (elapsed_piezo_time st) (piezo_duration st)); [lia|].
  destruct (elapsed_piezo_time st <=? wrap32 (piezo_duration st + 5));
    simpl; rewrite Heq, Z.eqb_refl; simpl; auto 10.
Qed.

(** A tick that finds the note over and the queue not empty takes the
    sample under the read cursor and starts it. *)
Lemma piezo_tick_dequeue st :
  piezo_duration st <= elapsed_piezo_time st ->
  buffer_free_pos st <> buffer_cur_pos st ->
  let ps := read_sample (buffer_cur_pos st) st in
  let st' := piezo_tick st in
  dequeued_by_tick st = Some ps /\
  elapsed_piezo_time st' = 0 /\ piezo_duration st' = duration ps /\
  buffer_free_pos st' = buffer_free_pos st /\
  buffer_cur_pos st' = wrap32 (buffer_cur_pos st + 1) mod PIEZO_BUFFER_LEN /\
  sample_buffer st' = sample_buffer st /\ overrun st' = overrun st /\
  nvic_tim3_irq (hw st') = negb (freq ps =? 0).
Proof.
  intros H Hne. unfold piezo_tick, dequeued_by_tick.
  destruct (Z.ltb_spec (elapsed_piezo_time st) (piezo_duration st)); [lia|].
  destruct (Z.eqb_spec (buffer_free_pos st) (buffer_cur_pos st)) as [?|_]; [lia|].
  destruct (elapsed_piezo_time st <=? wrap32 (piezo_duration st + 5)); simpl;
    (destruct (Z.eqb_spec (buffer_free_pos st) (buffer_cur_pos st)) as [?|_]; [lia|]);
    unfold read_sample; simpl;
    match goal with |- context [configure_piezo_timer ?p ?s] =>
      destruct (configure_piezo_timer_queue p s) as (-> & -> & -> & -> & _ & _);
      unfold configure_piezo_timer; destruct (freq p =? 0)
    end; simpl; auto 10.
Qed.

Lemma piezo_tick_not_dequeue st :
  dequeued_by_tick st = None ->
  buffer_free_pos (piezo_tick st) = buffer_free_pos st /\
  buffer_cur_pos (piezo_tick st) = buffer_cur_pos st /\
  sample_buffer (piezo_tick st) = sample_buffer st /\
  overrun (piezo_tick st) = overrun st.
Proof.
  unfold dequeued_by_tick. intros H.
  destruct (Z.ltb_spec (elapsed_piezo_time st) (piezo_duration st)) as [Hs|Hs].
  - rewrite piezo_tick_sounding by exact Hs. simpl. auto.
  - destruct (Z.eqb_spec (buffer_free_pos st) (buffer_cur_pos st)) as [He|]; [|discriminate].
    destruct (piezo_tick_empty st Hs He) as (_ & _ & _ & ? & ? & ? & ?). auto.
Qed.

Lemma piezo_tick_wf st : wf st -> wf (piezo_tick st).
Proof.
  intros Hwf. destruct (dequeued_by_tick st) as [ps|] eqn:Hd.
  - unfold dequeued_by_tick in Hd.
    destruct (Z.ltb_spec (elapsed_piezo_time st) (piezo_duration st)) as [|Hs]; [discriminate|].
    destruct (Z.eqb_spec (buffer_free_pos st) (buffer_cur_pos st)) as [|Hne]; [discriminate|].
    destruct (piezo_tick_dequeue st Hs Hne) as (_ & _ & _ & Hf & Hc & Hb & _).
    destruct Hwf as (? & ? & ?). unfold wf. rewrite Hf, Hc, Hb.
    unfold PIEZO_BUFFER_LEN in *. repeat split; try lia; apply Z.mod_pos_bound; lia.
  - destruct (piezo_tick_not_dequeue st Hd) as (Hf & Hc & Hb & _).
    unfold wf. rewrite Hf, Hc, Hb. exact Hwf.
Qed.

(** Taking a sample out removes the head of the queue. *)
Lemma piezo_tick_pops st ps :
  wf st -> dequeued_by_tick st = Some ps ->
  queue_contents st = ps :: queue_contents (piezo_tick st) /\
  occupancy (piezo_tick st) = occupancy st - 1.
Proof.
  intros Hwf Hd. unfold dequeued_by_tick in Hd.
  destruct (Z.ltb_spec (elapsed_piezo_time st) (piezo_duration st)) as [|Hs]; [discriminate|].
  destruct (Z.eqb_spec (buffer_free_pos st) (buffer_cur_pos st)) as [|Hne]; [discriminate|].
  injection Hd as <-.
  destruct (piezo_tick_dequeue st Hs Hne) as (_ & _ & _ & Hf & Hc & Hb & _).
  destruct Hwf as (Hfr & Hcr & _).
  assert (Hocc : occupancy (piezo_tick st) = occupancy st - 1).
  { unfold occupancy, wrap32, PIEZO_BUFFER_LEN in *. rewrite Hf, Hc. zsolve. }
  split; [|exact Hocc].
  unfold queue_contents. rewrite Hocc, Hc.
  assert (0 < occupancy st) as Hpos.
  { unfold occupancy, PIEZO_BUFFER_LEN in *. zsolve. }
  replace (Z.to_nat (occupancy st)) with (S (Z.to_nat (occupancy st - 1))) by lia.
  cbn [seq map]. f_equal.
  - f_equal. unfold PIEZO_BUFFER_LEN in *. zsolve.
  - rewrite <- seq_shift, map_map. apply map_ext. intros k.
    unfold read_sample. rewrite Hb. do 3 f_equal.
    unfold wrap32, PIEZO_BUFFER_LEN in *. zsolve.
Qed.

(** ** Runs: what goes in and what comes out *)

Lemma piezo_recv_cases size data st :
  piezo_recv size data st = (true, st) \/
  (fst (piezo_recv size data st) = false /\
   size <> 0 /\ Z.land size 3 = 0 /\ size / 4 < free_samples st).
Proof.
  unfold piezo_recv.
  destruct (Z.eqb_spec size 0); [left; reflexivity|].
  destruct (Z.eqb_spec (Z.land size 3) 0); simpl negb; cbv iota; [|left; reflexivity].
  destruct (Z.geb_spec (size / 4) (free_samples st)); [left; reflexivity|].
  right. destruct (buffer_free_pos st >? buffer_cur_pos st);
    match goal with |- context [if ?c then _ else _] => destruct c end;
    simpl; repeat split; auto; lia.
Qed.

Lemma step_wf st ev : wf st -> wf (step st ev).
Proof. destruct ev; simpl; [apply piezo_recv_wf | apply piezo_tick_wf]. Qed.

Lemma run_wf evs : forall st, wf st -> wf (run evs st).
Proof.
  induction evs as [|ev evs IH]; intros st Hwf; [exact Hwf|].
  apply IH, step_wf, Hwf.
Qed.

Lemma reachable_wf st : reachable st -> wf st.
Proof. induction 1; [apply wf_power_on | apply step_wf; assumption]. Qed.

Lemma reachable_run evs : forall st,
  reachable st -> Forall event_ok evs -> reachable (run evs st).
Proof.
  induction evs as [|ev evs IH]; intros st Hr Hok; [exact Hr|].
  inversion Hok; subst. apply IH; [constructor|]; assumption.
Qed.

Lemma step_occupancy st ev :
  wf st -> event_ok ev ->
  occupancy (step st ev)
    = occupancy st + Z.of_nat (length (accepted_samples st ev))
                   - Z.of_nat (length (played_samples st ev)).
Proof.
  intros Hwf Hok. destruct ev as [size data|]; simpl in *.
  - destruct Hok as [Hsize Hdata].
    destruct (piezo_recv_cases size data st) as [Hrej | (Hacc & Hnz & Hland & Hfit)].
    + rewrite Hrej. simpl. lia.
    + rewrite Hacc, occupancy_after_recv by (try assumption; lia).
      rewrite (samples_of_bytes_length (Z.to_nat (size / 4))).
      * rewrite land_3_mod in Hland. zsolve.
      * rewrite Hdata. rewrite land_3_mod in Hland. zsolve.
  - destruct (dequeued_by_tick st) as [ps|] eqn:Hd.
    + destruct (piezo_tick_pops st ps Hwf Hd) as [_ ->]. simpl. lia.
    + destruct (piezo_tick_not_dequeue st Hd) as (Hf & Hc & _).
      unfold occupancy. rewrite Hf, Hc. simpl. lia.
Qed.

Lemma run_occupancy evs : forall st,
  wf st -> Forall event_ok evs ->
  occupancy (run evs st) = occupancy st + occupied evs st.
Proof.
  unfold occupied.
  induction evs as [|ev evs IH]; intros st Hwf Hok; simpl; [lia|].
  inversion Hok; subst.
  rewrite IH by (try apply step_wf; assumption).
  rewrite step_occupancy by assumption.
  rewrite !length_app. lia.
Qed.

(** ** Stores that leave the array *)



Lemma piezo_recv_overrun_le size data st :
  (length (overrun st) <= length (overrun (snd (piezo_recv size data st))))%nat.
Proof.
  unfold piezo_recv.
  destruct (size =? 0); [simpl; lia|].
  destruct (negb (Z.land size 3 =? 0)); [simpl; lia|].
  destruct (size / 4 >=? free_samples st); [simpl; lia|].
  destruct (buffer_free_pos st >? buffer_cur_pos st);
    match goal with |- context [if ?c then _ else _] => destruct c end;
    repeat (simpl; first [ lia | etransitivity; [|apply memcpy_overrun_le] ]).
Qed.

Lemma piezo_tick_overrun st : overrun (piezo_tick st) = overrun st.
Proof.
  destruct (dequeued_by_tick st) as [ps|] eqn:Hd.
  - unfold dequeued_by_tick in Hd.
    destruct (Z.ltb_spec (elapsed_piezo_time st) (piezo_duration st)) as [|Hs]; [discriminate|].
    destruct (Z.eqb_spec (buffer_free_pos st) (buffer_cur_pos st)) as [|Hne]; [discriminate|].
    apply (piezo_tick_dequeue st Hs Hne).
  - apply (piezo_tick_not_dequeue st Hd).
Qed.

Lemma step_overrun_le st ev :
  (length (overrun st) <= length (overrun (step st ev)))%nat.
Proof.
  destruct ev; simpl; [apply piezo_recv_overrun_le | rewrite piezo_tick_overrun; lia].
Qed.

Lemma run_overrun_le evs : forall st,
  (length (overrun st) <= length (overrun (run evs st)))%nat.
Proof.
  induction evs as [|ev evs IH]; intros st; simpl; [lia|].
  etransitivity; [apply (step_overrun_le st ev) | apply IH].
Qed.


(** ** First in, first out, as long as no copy leaves the array *)

Lemma piezo_tick_keeps_queue st :
  dequeued_by_tick st = None -> queue_contents (piezo_tick st) = queue_contents st.
Proof.
  intros Hd. destruct (piezo_tick_not_dequeue st Hd) as (Hf & Hc & Hb & _).
  unfold queue_contents, occupancy, read_sample. rewrite Hf, Hc, Hb. reflexivity.
Qed.

(** In a run during which nothing was stored past the array, the samples
    played so far followed by those still queued are exactly the samples
    queued at the start followed by those admitted since, in order. *)
Lemma fifo_inside_array evs : forall st,
  wf st -> Forall event_ok evs ->
  overrun (run evs st) = overrun st ->
  queue_contents st ++ enqueued evs st
    = played evs st ++ queue_contents (run evs st).
Proof.
  induction evs as [|ev evs IH]; intros st Hwf Hok Hover.
  - simpl. rewrite app_nil_r. reflexivity.
  - inversion Hok as [|? ? Hev Hevs]; subst.
    cbn [run fold_left enqueued played] in *. fold (run evs (step st ev)) in *.
    pose proof (step_overrun_le st ev) as Hle1.
    pose proof (run_overrun_le evs (step st ev)) as Hle2.
    rewrite Hover in Hle2.
    pose proof (step_wf st ev Hwf) as Hwf'.
    destruct ev as [size data|]; simpl in Hev; cbn [accepted_samples played_samples step] in *.
    + destruct Hev as [Hsize Hdata].
      destruct (piezo_recv_cases size data st) as [Hrej | (Hacc & Hnz & Hland & Hfit)].
      * rewrite Hrej in *. simpl in *. apply IH; assumption.
      * rewrite Hacc.
        assert (Hroom : buffer_free_pos st = buffer_cur_pos st ->
                        buffer_free_pos st + size / 4 <= PIEZO_BUFFER_LEN).
        { intros Heq. destruct (Z.le_gt_cases (buffer_free_pos st + size / 4)
                                  PIEZO_BUFFER_LEN) as [?|Hpast]; [assumption|].
          pose proof (piezo_recv_overruns st size data Hwf ltac:(lia) Hland Hfit
                        Hdata Heq Hpast). lia. }
        destruct (piezo_recv_buffer st size data Hwf ltac:(lia) Hland Hfit Hdata Hroom)
          as [Hov _].
        simpl. rewrite app_assoc.
        rewrite <- (piezo_recv_enqueues st size data Hwf ltac:(lia) Hland Hfit Hdata Hroom).
        apply IH; [assumption | assumption | congruence].
    + rewrite piezo_tick_overrun in *.
      destruct (dequeued_by_tick st) as [ps|] eqn:Hd.
      * destruct (piezo_tick_pops st ps Hwf Hd) as [-> _].
        simpl. f_equal. apply IH; [assumption | assumption | ].
        rewrite piezo_tick_overrun. exact Hover.
      * simpl. rewrite <- (piezo_tick_keeps_queue st Hd).
        apply IH; [assumption | assumption | ].
        rewrite piezo_tick_overrun. exact Hover.
Qed.

(** ** The start-up sequence *)

(** One sample pumped in through [piezo_recv] joins the end of the queue
    when there is room for it next to the reserved slot. *)
Lemma piezo_recv_one st s :
  wf st -> is_sample s -> occupancy st + 1 < PIEZO_BUFFER_LEN ->
  let st' := snd (piezo_recv sizeof_sample (bytes_of_sample s) st) in
  wf st' /\ occupancy st' = occupancy st + 1 /\
  queue_contents st' = queue_contents st ++ [s] /\
  overrun st' = overrun st.
Proof.
  intros Hwf Hs Hocc. unfold sizeof_sample.
  pose proof (free_samples_occupancy st Hwf) as Hfs.
  assert (Hfit : 4 / 4 < free_samples st) by (change (4 / 4) with 1; lia).
  assert (Hroom : buffer_free_pos st = buffer_cur_pos st ->
                  buffer_free_pos st + 4 / 4 <= PIEZO_BUFFER_LEN).
  { intros _. destruct Hwf as (? & _). change (4 / 4) with 1. lia. }
  cbv zeta. split; [|split; [|split]].
  - apply piezo_recv_wf, Hwf.
  - rewrite occupancy_after_recv by (try assumption; try reflexivity; lia). reflexivity.
  - rewrite piezo_recv_enqueues by (try assumption; try reflexivity; lia).
    rewrite samples_of_bytes_of_sample by assumption. reflexivity.
  - apply piezo_recv_buffer; try assumption; try reflexivity; lia.
Qed.

Lemma beep_once_spec st f :
  wf st -> 0 <= f < 65536 -> occupancy st + 2 < PIEZO_BUFFER_LEN ->
  wf (beep_once f st) /\ occupancy (beep_once f st) = occupancy st + 2 /\
  queue_contents (beep_once f st) = queue_contents st ++ tone_and_rest f /\
  overrun (beep_once f st) = overrun st.
Proof.
  intros Hwf Hf Hocc. unfold beep_once.
  destruct (piezo_recv_one st (mk_sample f 150) Hwf) as (Hwf1 & Ho1 & Hq1 & Hv1);
    [split; simpl; lia | lia |].
  destruct (piezo_recv_one _ (mk_sample 0 15) Hwf1) as (Hwf2 & Ho2 & Hq2 & Hv2);
    [split; simpl; lia | lia |].
  split; [exact Hwf2 | split; [lia | split; [|congruence]]].
  rewrite Hq2, Hq1, <- app_assoc. reflexivity.
Qed.

Lemma beep_times_spec count : forall st f,
  wf st -> 0 <= f < 65536 ->
  occupancy st + 2 * Z.of_nat count < PIEZO_BUFFER_LEN ->
  wf (beep_times count f st) /\
  occupancy (beep_times count f st) = occupancy st + 2 * Z.of_nat count /\
  queue_contents (beep_times count f st)
    = queue_contents st ++ concat (repeat (tone_and_rest f) count) /\
  overrun (beep_times count f st) = overrun st.
Proof.
  induction count as [|count IH]; intros st f Hwf Hf Hocc.
  - simpl. rewrite app_nil_r. split; [exact Hwf | split; [lia | split; reflexivity]].
  - cbn [beep_times repeat concat].
    destruct (beep_once_spec st f Hwf Hf) as (Hwf1 & Ho1 & Hq1 & Hv1); [lia|].
    destruct (IH (beep_once f st) f Hwf1 Hf) as (Hwf2 & Ho2 & Hq2 & Hv2); [lia|].
    split; [exact Hwf2 | split; [lia | split; [|congruence]]].
    rewrite Hq2, Hq1, <- app_assoc. reflexivity.
Qed.

Lemma length_tone_and_rest_repeat f c :
  length (concat (repeat (tone_and_rest f) c)) = (2 * c)%nat.
Proof. induction c as [|c IH]; simpl in *; lia. Qed.

Lemma tone_count_field r (k : nat) :
  0 <= r < 256 ->
  Z.land (Z.shiftr (Z.land r 255) (2 * Z.of_nat k)) 3 = spec_startup_field r k.
Proof.
  intros Hr. unfold spec_startup_field.
  change 255 with (Z.ones 8). rewrite Z.land_ones by lia.
  rewrite land_3_mod, Z.shiftr_div_pow2 by lia.
  rewrite (Z.mod_small r) by (change (2 ^ 8) with 256; lia).
  rewrite Z.pow_mul_r by lia. reflexivity.
Qed.

Lemma spec_startup_field_range r k : 0 <= spec_startup_field r k < 4.
Proof. unfold spec_startup_field. apply Z.mod_pos_bound. lia. Qed.

Lemma length_startup_sequence r :
  Z.of_nat (length (spec_startup_sequence r))
    = 2 * (spec_startup_field r 3 + spec_startup_field r 2
           + spec_startup_field r 1 + spec_startup_field r 0).
Proof.
  pose proof (spec_startup_field_range r 0). pose proof (spec_startup_field_range r 1).
  pose proof (spec_startup_field_range r 2). pose proof (spec_startup_field_range r 3).
  unfold spec_startup_sequence. cbn [flat_map].
  rewrite !length_app, !length_tone_and_rest_repeat. simpl length. lia.
Qed.

(** [piezo_init_beep] against the sequence of the spec. *)
Lemma piezo_init_beep_spec r st :
  0 <= r < 256 -> wf st ->
  occupancy st + Z.of_nat (length (spec_startup_sequence r)) < PIEZO_BUFFER_LEN ->
  wf (piezo_init_beep r st) /\
  queue_contents (piezo_init_beep r st) = queue_contents st ++ spec_startup_sequence r /\
  overrun (piezo_init_beep r st) = overrun st.
Proof.
  intros Hr Hwf Hroom. rewrite length_startup_sequence in Hroom.
  pose proof (spec_startup_field_range r 0) as H0. pose proof (spec_startup_field_range r 1) as H1.
  pose proof (spec_startup_field_range r 2) as H2. pose proof (spec_startup_field_range r 3) as H3.
  unfold piezo_init_beep. cbn [fold_left nth Nat.sub fw_tones].
  pose proof (tone_count_field r 3 Hr) as F3. change (2 * Z.of_nat 3) with 6 in F3.
  pose proof (tone_count_field r 2 Hr) as F2. change (2 * Z.of_nat 2) with 4 in F2.
  pose proof (tone_count_field r 1 Hr) as F1. change (2 * Z.of_nat 1) with 2 in F1.
  pose proof (tone_count_field r 0 Hr) as F0. change (2 * Z.of_nat 0) with 0 in F0.
  rewrite Z.shiftr_0_r in F0. rewrite F3, F2, F1, F0.
  destruct (beep_times_spec (Z.to_nat (spec_startup_field r 3)) st 130 Hwf)
    as (Hwf3 & Ho3 & Hq3 & Hv3); [lia | lia |].
  destruct (beep_times_spec (Z.to_nat (spec_startup_field r 2)) _ 164 Hwf3)
    as (Hwf2 & Ho2 & Hq2 & Hv2); [lia | lia |].
  destruct (beep_times_spec (Z.to_nat (spec_startup_field r 1)) _ 196 Hwf2)
    as (Hwf1 & Ho1 & Hq1 & Hv1); [lia | lia |].
  destruct (beep_times_spec (Z.to_nat (spec_startup_field r 0)) _ 261 Hwf1)
    as (Hwf0 & Ho0 & Hq0 & Hv0); [lia | lia |].
  split; [exact Hwf0 | split; [|congruence]].
  rewrite Hq0, Hq1, Hq2, Hq3. unfold spec_startup_sequence. cbn [flat_map nth fw_tones].
  rewrite app_nil_r, <- !app_assoc. reflexivity.
Qed.

(** At reset [piezo_init_beep] always finds room: the queue then holds the
    sequence of the spec and nothing else. *)
Lemma piezo_init_beep_at_reset r :
  0 <= r < 256 ->
  queue_contents (piezo_init_beep r power_on) = spec_startup_sequence r /\
  overrun (piezo_init_beep r power_on) = [].
Proof.
  intros Hr.
  pose proof (spec_startup_field_range r 0). pose proof (spec_startup_field_range r 1).
  pose proof (spec_startup_field_range r 2). pose proof (spec_startup_field_range r 3).
  destruct (piezo_init_beep_spec r power_on Hr wf_power_on) as (_ & Hq & Hv).
  - rewrite length_startup_sequence. change (occupancy power_on) with 0.
    unfold PIEZO_BUFFER_LEN. lia.
  - split; [exact Hq | exact Hv].
Qed.

(** ** Filling from reset, and draining *)

Lemma ticks_ok n : Forall event_ok (repeat Tick n).
Proof. induction n; simpl; constructor; [exact I | assumption]. Qed.

Lemma ticks_inside n : forall st, overrun (run (repeat Tick n) st) = overrun st.
Proof.
  induction n as [|n IH]; intros st; [reflexivity|].
  simpl. fold (run (repeat Tick n) (piezo_tick st)).
  rewrite IH. apply piezo_tick_overrun.
Qed.

Lemma ticks_enqueue_nothing n : forall st, enqueued (repeat Tick n) st = [].
Proof. induction n as [|n IH]; intros st; simpl; [reflexivity | apply IH]. Qed.

(** Ticks alone take the queued samples out in order. *)
Lemma drain_in_order n st :
  wf st ->
  queue_contents st
    = played (repeat Tick n) st ++ queue_contents (run (repeat Tick n) st).
Proof.
  intros Hwf.
  rewrite <- (fifo_inside_array (repeat Tick n) st Hwf (ticks_ok n) (ticks_inside n st)).
  rewrite ticks_enqueue_nothing, app_nil_r. reflexivity.
Qed.

(** While the read cursor is at slot 0, as it is from reset until the first
    sample is played, no burst leaves the array. *)
Lemma recv_only_inside evs : forall st,
  wf st -> buffer_cur_pos st = 0 ->
  Forall event_ok evs -> Forall is_recv evs ->
  overrun (run evs st) = overrun st /\ played evs st = [].
Proof.
  induction evs as [|ev evs IH]; intros st Hwf Hcp Hok Hrecv; [split; reflexivity|].
  inversion Hok as [|? ? Hev Hevs]; inversion Hrecv as [|? ? Hr Hrs]; subst.
  destruct ev as [size data|]; [|destruct Hr].
  destruct Hev as [Hsize Hdata].
  cbn [run fold_left played played_samples step app].
  fold (run evs (snd (piezo_recv size data st))).
  destruct (piezo_recv_cases size data st) as [Hrej | (Hacc & Hnz & Hland & Hfit)].
  - rewrite Hrej. simpl. apply IH; assumption.
  - assert (Hsz : 0 < size < 4294967296) by lia.
    pose proof (free_samples_occupancy st Hwf) as Hfs.
    pose proof (occupancy_range st) as Hocc.
    assert (Hroom : buffer_free_pos st = buffer_cur_pos st ->
                    buffer_free_pos st + size / 4 <= PIEZO_BUFFER_LEN) by lia.
    destruct (piezo_recv_buffer st size data Hwf Hsz Hland Hfit Hdata Hroom) as [Hov _].
    destruct (piezo_recv_cursors st size data Hwf Hsz Hland Hfit) as (_ & _ & Hcp' & _).
    destruct (IH (snd (piezo_recv size data st))) as [Hov' Hpl];
      [apply piezo_recv_wf, Hwf | congruence | assumption | assumption |].
    split; [congruence | exact Hpl].
Qed.

(** Bursts admitted from reset, with no tick in between, sit in the queue
    in the order they were admitted. *)
Lemma fill_from_reset evs :
  Forall event_ok evs -> Forall is_recv evs ->
  queue_contents (run evs power_on) = enqueued evs power_on /\
  overrun (run evs power_on) = [].
Proof.
  intros Hok Hrecv.
  destruct (recv_only_inside evs power_on wf_power_on eq_refl Hok Hrecv) as [Hov Hpl].
  pose proof (fifo_inside_array evs power_on wf_power_on Hok Hov) as Hfifo.
  rewrite Hpl in Hfifo. simpl in Hfifo. split; [symmetry; exact Hfifo | exact Hov].
Qed.

(** ** The playback counters never pass the duration *)

Lemma samples_of_bytes_is_sample n : forall data,
  (length data <= n)%nat -> Forall is_byte data ->
  Forall is_sample (samples_of_bytes data).
Proof.
  induction n as [|n IH]; intros data Hlen Hb.
  - destruct data; [constructor | simpl in Hlen; lia].
  - destruct data as [|b0 [|b1 [|b2 [|b3 rest]]]]; try constructor.
    + inversion Hb as [|? ? Hb0 Hbt1]; inversion Hbt1 as [|? ? Hb1 Hbt2];
        inversion Hbt2 as [|? ? Hb2 Hbt3]; inversion Hbt3 as [|? ? Hb3 _]; subst.
      unfold is_byte, is_sample in *. simpl. lia.
    + apply IH; [simpl in Hlen; lia|].
      do 4 (apply Forall_inv_tail in Hb). exact Hb.
Qed.

Lemma store_samples_is_sample l : forall i st,
  Forall is_sample l -> Forall is_sample (sample_buffer st) ->
  Forall is_sample (sample_buffer (store_samples i l st)).
Proof.
  induction l as [|s l IH]; intros i st Hl Hst; [exact Hst|].
  inversion Hl; subst. cbn [store_samples]. apply IH; [assumption|].
  unfold store_sample. destruct (i <? PIEZO_BUFFER_LEN); simpl; [|exact Hst].
  apply Forall_insert; assumption.
Qed.

Lemma memcpy_playing_ok pos data bytes st :
  Forall is_byte data -> playing_ok st ->
  playing_ok (memcpy_sample_buffer pos data bytes st).
Proof.
  intros Hb (He & Hd & Hs). unfold playing_ok.
  autorewrite with piezo. split; [exact He | split; [exact Hd|]].
  apply store_samples_is_sample; [|exact Hs].
  apply (samples_of_bytes_is_sample (length data)).
  - rewrite length_take. lia.
  - apply Forall_take, Hb.
Qed.

Lemma set_buffer_free_pos_playing_ok p st :
  playing_ok st -> playing_ok (set_buffer_free_pos p st).
Proof. intros H. exact H. Qed.

Lemma piezo_recv_playing_ok size data st :
  Forall is_byte data -> playing_ok st ->
  playing_ok (snd (piezo_recv size data st)).
Proof.
  intros Hb Hst. unfold piezo_recv.
  destruct (size =? 0); [exact Hst|].
  destruct (negb (Z.land size 3 =? 0)); [exact Hst|].
  destruct (size / 4 >=? free_samples st); [exact Hst|].
  destruct (buffer_free_pos st >? buffer_cur_pos st);
    match goal with |- context [if ?c then _ else _] => destruct c end;
    cbn [snd];
    repeat first [ exact Hst
                 | apply set_buffer_free_pos_playing_ok
                 | apply memcpy_playing_ok; [try exact Hb; apply Forall_drop, Hb|] ].
Qed.

Lemma read_sample_is_sample i st :
  Forall is_sample (sample_buffer st) -> is_sample (read_sample i st).
Proof.
  intros Hs. unfold read_sample.
  destruct (sample_buffer st !! Z.to_nat i) as [s|] eqn:Hl; simpl.
  - exact (Forall_lookup_1 _ _ _ _ Hs Hl).
  - split; simpl; lia.
Qed.

Lemma piezo_tick_playing_ok st : playing_ok st -> playing_ok (piezo_tick st).
Proof.
  intros (He & Hd & Hs).
  destruct (Z.lt_ge_cases (elapsed_piezo_time st) (piezo_duration st)) as [Hlt|Hge].
  - rewrite piezo_tick_sounding by exact Hlt. unfold playing_ok, wrap32. simpl.
    rewrite Z.mod_small by lia. repeat split; try assumption; lia.
  - destruct (Z.eq_dec (buffer_free_pos st) (buffer_cur_pos st)) as [Heq|Hne].
    + destruct (piezo_tick_empty st Hge Heq) as (_ & He' & Hd' & _ & _ & Hb' & _).
      unfold playing_ok. rewrite He', Hd', Hb'. repeat split; try assumption; lia.
    + destruct (piezo_tick_dequeue st Hge Hne) as (_ & He' & Hd' & _ & _ & Hb' & _).
      destruct (read_sample_is_sample (buffer_cur_pos st) st Hs) as [_ Hdur].
      unfold playing_ok. rewrite He', Hd', Hb'. repeat split; try assumption; lia.
Qed.

Lemma playing_ok_power_on : playing_ok power_on.
Proof.
  unfold playing_ok. split; [simpl; lia | split; [simpl; lia|]].
  change (sample_buffer power_on)
    with (replicate (Z.to_nat PIEZO_BUFFER_LEN) (mk_sample 0 0)).
  apply Forall_replicate. split; simpl; lia.
Qed.

Lemma run_playing_ok evs : forall st,
  Forall bytes_ok evs -> playing_ok st -> playing_ok (run evs st).
Proof.
  induction evs as [|ev evs IH]; intros st Hb Hst; [exact Hst|].
  inversion Hb; subst. apply IH; [assumption|].
  destruct ev; simpl; [apply piezo_recv_playing_ok | apply piezo_tick_playing_ok];
    assumption.
Qed.

(** In a state the driver reaches with nothing stored past the array, a
    tick that does not count is always
    in the branch commented "5ms silence": [elapsed_piezo_time] equals
    [piezo_duration], the interrupt is masked, and the queue is looked at
    in the same call.  The window in which [elapsed_piezo_time] lies
    between [piezo_duration] and [piezo_duration + 5] is one point wide. *)
Lemma gap_branch_is_one_tick evs :
  Forall bytes_ok evs ->
  overrun (run evs power_on) = [] ->
  let st := run evs power_on in
  elapsed_piezo_time st <= piezo_duration st /\
  (~ elapsed_piezo_time st < piezo_duration st ->
   elapsed_piezo_time st = piezo_duration st /\
   (elapsed_piezo_time st <=? wrap32 (piezo_duration st + 5)) = true /\
   elapsed_piezo_time (piezo_tick st) = 0).
Proof.
  intros Hb _. cbv zeta.
  destruct (run_playing_ok evs power_on Hb playing_ok_power_on) as (He & Hd & _).
  split; [lia|]. intros Hn.
  split; [lia|]. split.
  - unfold wrap32. rewrite Z.mod_small by lia. apply Z.leb_le. lia.
  - destruct (Z.eq_dec (buffer_free_pos (run evs power_on))
                       (buffer_cur_pos (run evs power_on))) as [Heq|Hne].
    + apply piezo_tick_empty; [lia | exact Heq].
    + apply piezo_tick_dequeue; [lia | exact Hne].
Qed.

(** ** The scenarios are reachable *)

Lemma reachable_near_end : reachable near_end.
Proof.
  apply reachable_run; [constructor|].
  constructor; [split; [lia | reflexivity]|]. apply ticks_ok.
Qed.

(** ** The claims *)

(** C1 (the code departs from it): the claim has the scheduler wait until
    [elapsed] exceeds D + 5 before it looks at the queue, so that a lone
    sample {440, 100} goes silent on ticks 101 to 105 and the scheduler
    turns idle on tick 106.  In [piezo_tick] the branch commented
    "5ms silence" masks the interrupt and then falls through to the queue
    test.  After the sample has started it sounds for 100 ticks; tick 101
    already masks the interrupt and clears both counters, and ticks 102 to
    106 change nothing.  With a second sample queued, tick 101 starts that
    sample at once, interrupt enabled, with no silent tick in between.
    [gap_branch_is_one_tick] shows the same in every state the driver
    reaches with nothing stored past the array: [elapsed_piezo_time] never
    passes [piezo_duration]. *)
Theorem C1_gap_is_not_waited :
  (piezo_duration one_note_sounding = 100 /\
   elapsed_piezo_time one_note_sounding = 0 /\
   nvic_tim3_irq (hw one_note_sounding) = true /\
   tim3_period (hw one_note_sounding) = 1136) /\
  (let st := run (repeat Tick 100) one_note_sounding in
   elapsed_piezo_time st = 100 /\ piezo_duration st = 100 /\
   nvic_tim3_irq (hw st) = true) /\
  (let st := run (repeat Tick 101) one_note_sounding in
   nvic_tim3_irq (hw st) = false /\
   elapsed_piezo_time st = 0 /\ piezo_duration st = 0 /\
   run (repeat Tick 5) st = st) /\
  (let st := run (repeat Tick 100) two_notes_sounding in
   dequeued_by_tick st = Some (mk_sample 880 50) /\
   nvic_tim3_irq (hw (piezo_tick st)) = true /\
   tim3_period (hw (piezo_tick st)) = 568 /\
   piezo_duration (piezo_tick st) = 50).
Proof. vm_compute. repeat split; reflexivity. Qed.

(** C2 (the code departs from it): the claim has every accepted burst
    written inside the 32-slot array, also when both cursors are equal
    near the end of the array.  In the reachable state [near_end] both
    cursors are 30; a burst of five samples is accepted, the first branch
    of [piezo_recv] is skipped because [buffer_free_pos] is not greater
    than [buffer_cur_pos], and the single copy of the second branch stores
    the last three samples at slots 32, 33 and 34, past the array; slots
    0, 1 and 2, where they belong, keep their old contents. *)
Theorem C2_copy_leaves_the_array :
  reachable near_end /\
  buffer_free_pos near_end = 30 /\ buffer_cur_pos near_end = 30 /\
  overrun near_end = [] /\
  fst (piezo_recv 20 burst5_bytes near_end) = false /\
  overrun (snd (piezo_recv 20 burst5_bytes near_end))
    = [(32, mk_sample 3 0); (33, mk_sample 4 0); (34, mk_sample 5 0)] /\
  buffer_free_pos (snd (piezo_recv 20 burst5_bytes near_end)) = 3 /\
  take 3 (sample_buffer (snd (piezo_recv 20 burst5_bytes near_end)))
    = take 3 (sample_buffer near_end).
Proof.
  split; [apply reachable_near_end|].
  vm_compute. repeat split; reflexivity.
Qed.

(** C3 (counterexample): at reset the queue is empty and [free_samples]
    returns 32, not 31. *)
Lemma C3_free_samples_empty_is_32 :
  buffer_free_pos power_on = buffer_cur_pos power_on /\
  free_samples power_on = 32 /\
  free_samples power_on <> PIEZO_BUFFER_LEN - 1.
Proof. split; [reflexivity | split; [reflexivity | vm_compute; discriminate]]. Qed.

(** C3 (amended): for cursors inside the array, [free_samples] returns the
    number of slots not occupied, the reserved slot included: the capacity
    minus the occupancy, hence 32 when the queue is empty.  The reserved
    slot is kept free by the caller's comparison: a burst of a valid length
    is admitted exactly when it has at most [free_samples - 1] samples. *)
Theorem C3_free_samples_counts_reserved_slot st :
  wf st ->
  free_samples st = PIEZO_BUFFER_LEN - occupancy st /\
  (buffer_free_pos st = buffer_cur_pos st -> free_samples st = PIEZO_BUFFER_LEN) /\
  (forall size data, 0 < size < 4294967296 -> size mod 4 = 0 ->
     (fst (piezo_recv size data st) = false <-> size / 4 <= free_samples st - 1)).
Proof.
  intros Hwf. split; [apply free_samples_occupancy, Hwf | split].
  - intros Heq. unfold free_samples. rewrite Heq, Z.eqb_refl. reflexivity.
  - intros size data Hsize Hmod. rewrite <- land_3_mod in Hmod. split.
    + intros Hacc.
      destruct (piezo_recv_cases size data st) as [Hrej | (_ & _ & _ & Hfit)];
        [rewrite Hrej in Hacc; discriminate | lia].
    + intros Hfit. apply piezo_recv_cursors; try assumption. lia.
Qed.

Lemma C3_free_samples_counts_reserved_slot_witness :
  wf power_on /\
  free_samples power_on = PIEZO_BUFFER_LEN - occupancy power_on /\
  (buffer_free_pos power_on = buffer_cur_pos power_on ->
   free_samples power_on = PIEZO_BUFFER_LEN) /\
  (forall size data, 0 < size < 4294967296 -> size mod 4 = 0 ->
     (fst (piezo_recv size data power_on) = false
      <-> size / 4 <= free_samples power_on - 1)).
Proof.
  assert (Hwf : wf power_on) by (unfold wf, PIEZO_BUFFER_LEN; simpl; lia).
  split; [exact Hwf|].
  apply (C3_free_samples_counts_reserved_slot power_on Hwf).
Defined.

(** C4: a burst whose sample count [size / 4] is at least [free_samples]
    is refused as a whole: [piezo_recv] returns [true] and the state, with
    its cursors and its array, is the one before the call. *)
Theorem C4_full_burst_rejected st size data :
  free_samples st <= size / 4 ->
  piezo_recv size data st = (true, st).
Proof.
  intros Hfull. unfold piezo_recv.
  destruct (size =? 0); [reflexivity|].
  destruct (negb (Z.land size 3 =? 0)); [reflexivity|].
  destruct (Z.geb_spec (size / 4) (free_samples st)); [reflexivity | lia].
Qed.

Lemma C4_full_burst_rejected_witness :
  free_samples power_on <= 128 / 4 /\
  piezo_recv 128 (replicate 128 0) power_on = (true, power_on).
Proof.
  split; [vm_compute; discriminate|].
  apply (C4_full_burst_rejected power_on 128 (replicate 128 0)).
  vm_compute; discriminate.
Defined.

(** C5 (the code departs from it): the claim has every burst of a valid
    length with fewer samples than [free_samples] admitted, the write
    cursor advanced by the sample count modulo the capacity and
    [free_samples] lowered by exactly that count.  In the reachable state
    [near_end] the burst of five samples meets every condition of the
    claim, and [piezo_recv] admits it; but the cursors are equal at slot
    30, so the one copy it makes stores the last three samples in the
    twelve bytes that follow the array.  The program's text does not say
    what the cursors are after that (C2). *)
Theorem C5_fitting_burst_overruns :
  reachable near_end /\ wf near_end /\
  20 mod 4 = 0 /\ length burst5_bytes = Z.to_nat 20 /\
  20 / 4 < free_samples near_end /\
  buffer_free_pos near_end = buffer_cur_pos near_end /\
  PIEZO_BUFFER_LEN < buffer_free_pos near_end + 20 / 4 /\
  fst (piezo_recv 20 burst5_bytes near_end) = false /\
  overrun (snd (piezo_recv 20 burst5_bytes near_end))
    = [(32, mk_sample 3 0); (33, mk_sample 4 0); (34, mk_sample 5 0)].
Proof.
  split; [apply reachable_near_end|].
  split; [apply reachable_wf, reachable_near_end|].
  vm_compute. repeat split; reflexivity.
Qed.

(** C6 (counterexample): a zero-length call returns the value a call of
    length 3 returns, and not the value an admitted burst returns: it
    cannot be told from a rejection. *)
Lemma C6_zero_length_looks_rejected :
  piezo_recv 0 [] power_on = (true, power_on) /\
  piezo_recv 3 [1; 2; 3] power_on = (true, power_on) /\
  fst (piezo_recv 0 [] power_on) = fst (piezo_recv 3 [1; 2; 3] power_on) /\
  fst (piezo_recv 0 [] power_on) <> fst (piezo_recv 4 note_440 power_on).
Proof. vm_compute. repeat split; try reflexivity. discriminate. Qed.

(** C6 (amended): for every byte length that is not a positive multiple of
    4, zero included, [piezo_recv] returns [true], the value of every
    refusal, and leaves the state as it was. *)
Theorem C6_bad_length_rejected st size data :
  0 <= size -> ~ (0 < size /\ size mod 4 = 0) ->
  piezo_recv size data st = (true, st).
Proof.
  intros Hsize Hbad. unfold piezo_recv.
  destruct (Z.eqb_spec size 0); [reflexivity|].
  rewrite land_3_mod.
  destruct (Z.eqb_spec (size mod 4) 0); [exfalso; apply Hbad; lia | reflexivity].
Qed.

Lemma C6_bad_length_rejected_witness :
  0 <= 5 /\ ~ (0 < 5 /\ 5 mod 4 = 0) /\
  piezo_recv 5 [1; 2; 3; 4; 5] near_end = (true, near_end).
Proof.
  split; [lia|]. split; [intros [_ H]; vm_compute in H; discriminate|].
  apply (C6_bad_length_rejected near_end 5 [1; 2; 3; 4; 5]); [lia|].
  intros [_ H]; vm_compute in H; discriminate.
Defined.

(** C7 (the code departs from it): the claim has, in every state reached
    from reset, at most 31 samples occupied and the cursors equal exactly
    when the queue is empty.  The run below is made of well-formed calls
    from reset: thirty samples admitted and played, then a burst of five
    admitted with nothing played since, so five samples are occupied.  The
    copy of that burst stores three samples past the array (C2), in the
    memory where a build may keep the two cursors: after it the program's
    text no longer ties the cursors to the number of samples occupied. *)
Theorem C7_cursors_not_kept_after_overrun :
  let evs := Recv 120 filler :: repeat Tick 30 ++ [Recv 20 burst5_bytes] in
  Forall event_ok evs /\
  occupied evs power_on = 5 /\
  enqueued evs power_on = repeat (mk_sample 7 0) 30 ++ burst5 /\
  played evs power_on = repeat (mk_sample 7 0) 30 /\
  overrun (run evs power_on)
    = [(32, mk_sample 3 0); (33, mk_sample 4 0); (34, mk_sample 5 0)].
Proof.
  cbv zeta. split.
  - constructor; [split; [lia | reflexivity]|].
    apply Forall_app. split; [apply ticks_ok|].
    constructor; [split; [lia | reflexivity] | constructor].
  - vm_compute. repeat split; reflexivity.
Qed.

(** C8 (the code departs from it): the claim has the samples come out in
    the order they went in, none lost.  From reset: thirty samples of
    frequency 7 are admitted and thirty ticks play them, which leaves the
    queue empty with both cursors at slot 30; the burst 1, 2, 3, 4, 5 is
    admitted and five ticks take five samples out: 1 and 2, then three old
    samples of frequency 7 from slots 0, 1 and 2.  Samples 3, 4 and 5 were
    stored past the array (C2) and are never played; after that the queue
    is empty. *)
Theorem C8_order_lost_after_overrun :
  let evs := Recv 120 filler :: repeat Tick 30
             ++ Recv 20 burst5_bytes :: repeat Tick 5 in
  Forall event_ok evs /\
  enqueued evs power_on = repeat (mk_sample 7 0) 30 ++ burst5 /\
  played evs power_on
    = repeat (mk_sample 7 0) 30
      ++ [mk_sample 1 0; mk_sample 2 0; mk_sample 7 0; mk_sample 7 0; mk_sample 7 0] /\
  played evs power_on <> enqueued evs power_on /\
  queue_contents (run evs power_on) = [] /\
  dequeued_by_tick (run evs power_on) = None.
Proof.
  cbv zeta. split.
  - constructor; [split; [lia | reflexivity]|].
    apply Forall_app. split; [apply ticks_ok|].
    constructor; [split; [lia | reflexivity] | apply ticks_ok].
  - vm_compute. repeat split; try reflexivity. discriminate.
Qed.

(** C9: for a sample of nonzero frequency f, [configure_piezo_timer] hands
    [(1000000 / min f 10000) / 2] to [timer_set_period] and enables the
    interrupt, so every f of 10000 or more gets the period of 10000 Hz;
    for frequency 0 it masks the interrupt and leaves the period alone. *)
Theorem C9_configure_piezo_timer ps st :
  is_sample ps ->
  let st' := configure_piezo_timer ps st in
  (freq ps <> 0 ->
     tim3_period (hw st') = (1000000 / Z.min (freq ps) 10000) / 2 /\
     nvic_tim3_irq (hw st') = true /\
     (10000 <= freq ps ->
        tim3_period (hw st')
          = tim3_period (hw (configure_piezo_timer (mk_sample 10000 (duration ps)) st)))) /\
  (freq ps = 0 ->
     nvic_tim3_irq (hw st') = false /\ tim3_period (hw st') = tim3_period (hw st)).
Proof.
  intros [Hf _]. cbv zeta. unfold configure_piezo_timer.
  destruct (Z.eqb_spec (freq ps) 0) as [Hz|Hnz].
  { split; [intros ?; lia|]. intros _. simpl. auto. }
  split; [|intros ?; lia].
  - intros _. simpl. unfold MIN, wrap32.
    assert (Hsmall : forall f, 0 < f -> (1000000 / f) mod 4294967296 = 1000000 / f).
    { intros f Hpos. apply Z.mod_small. split; [apply Z.div_pos; lia|].
      apply Z.le_lt_trans with 1000000; [|lia].
      apply Z.div_le_upper_bound; nia. }
    destruct (Z.ltb_spec 10000 (freq ps)).
    + rewrite Z.min_r by lia. split; [reflexivity | split; reflexivity].
    + rewrite Z.min_l by lia. rewrite Hsmall by lia.
      split; [reflexivity | split; [reflexivity|]].
      intros ?. assert (freq ps = 10000) as -> by lia. reflexivity.
Qed.

Lemma C9_configure_piezo_timer_witness :
  is_sample (mk_sample 50000 100) /\
  tim3_period (hw (configure_piezo_timer (mk_sample 50000 100) power_on)) = 50 /\
  tim3_period (hw (configure_piezo_timer (mk_sample 50000 100) power_on))
    = tim3_period (hw (configure_piezo_timer (mk_sample 10000 100) power_on)).
Proof.
  assert (Hs : is_sample (mk_sample 50000 100)) by (split; simpl; lia).
  split; [exact Hs|].
  destruct (C9_configure_piezo_timer (mk_sample 50000 100) power_on Hs) as [Hnz _].
  destruct (Hnz ltac:(simpl; lia)) as (Hp & _ & Hclamp).
  split; [exact Hp | apply Hclamp; simpl; lia].
Defined.

(** C10: for every revision byte r, [piezo_init_beep] appends to the
    queue, through [piezo_recv], the sequence of the spec: for each 2-bit
    field of r, most significant first, as many (150 ms tone at the
    field's frequency, 15 ms rest) pairs as the field's value, provided
    the queue has room for them; no store leaves the array. *)
Theorem C10_startup_sequence r st :
  0 <= r < 256 -> wf st ->
  occupancy st + Z.of_nat (length (spec_startup_sequence r)) < PIEZO_BUFFER_LEN ->
  queue_contents (piezo_init_beep r st) = queue_contents st ++ spec_startup_sequence r /\
  overrun (piezo_init_beep r st) = overrun st.
Proof. intros Hr Hwf Hroom. apply piezo_init_beep_spec; assumption. Qed.

Lemma C10_startup_sequence_witness :
  map (spec_startup_field 108) [3; 2; 1; 0]%nat = [1; 2; 3; 0] /\
  queue_contents (piezo_init_beep 108 power_on)
    = [mk_sample 130 150; mk_sample 0 15;
       mk_sample 164 150; mk_sample 0 15; mk_sample 164 150; mk_sample 0 15;
       mk_sample 196 150; mk_sample 0 15; mk_sample 196 150; mk_sample 0 15;
       mk_sample 196 150; mk_sample 0 15].
Proof.
  split; [reflexivity|].
  destruct (C10_startup_sequence 108 power_on) as [Hq _].
  - lia.
  - unfold wf, PIEZO_BUFFER_LEN; simpl; lia.
  - vm_compute. reflexivity.
  - rewrite Hq. reflexivity.
Defined.

(** * Further properties of the driver *)

(** ** Producer and consumer keep to their own fields *)

Lemma store_samples_set_hw l : forall i h st,
  store_samples i l (set_hw h st) = set_hw h (store_samples i l st).
Proof.
  induction l as [|s l IH]; intros i h st; [reflexivity|].
  cbn [store_samples]. rewrite <- IH. f_equal.
  unfold store_sample. destruct (i <? PIEZO_BUFFER_LEN); reflexivity.
Qed.

Lemma piezo_recv_frame size data st :
  buffer_cur_pos (snd (piezo_recv size data st)) = buffer_cur_pos st /\
  elapsed_piezo_time (snd (piezo_recv size data st)) = elapsed_piezo_time st /\
  piezo_duration (snd (piezo_recv size data st)) = piezo_duration st /\
  hw (snd (piezo_recv size data st)) = hw st.
Proof.
  unfold piezo_recv.
  destruct (size =? 0); [auto|].
  destruct (negb (Z.land size 3 =? 0)); [auto|].
  destruct (size / 4 >=? free_samples st); [auto|].
  destruct (buffer_free_pos st >? buffer_cur_pos st);
    match goal with |- context [if ?c then _ else _] => destruct c end;
    simpl; autorewrite with piezo; simpl; autorewrite with piezo; auto.
Qed.

Lemma piezo_tick_frame st :
  buffer_free_pos (piezo_tick st) = buffer_free_pos st /\
  sample_buffer (piezo_tick st) = sample_buffer st /\
  overrun (piezo_tick st) = overrun st.
Proof.
  destruct (dequeued_by_tick st) as [ps|] eqn:Hd.
  - unfold dequeued_by_tick in Hd.
    destruct (Z.ltb_spec (elapsed_piezo_time st) (piezo_duration st)) as [|Hs];
      [discriminate|].
    destruct (Z.eqb_spec (buffer_free_pos st) (buffer_cur_pos st)) as [|Hne];
      [discriminate|].
    destruct (piezo_tick_dequeue st Hs Hne) as (_ & _ & _ & ? & _ & ? & ? & _). auto.
  - destruct (piezo_tick_not_dequeue st Hd) as (? & _ & ? & ?). auto.
Qed.

Lemma piezo_tick_pin st : pin_level (hw (piezo_tick st)) = pin_level (hw st).
Proof.
  unfold piezo_tick.
  destruct (elapsed_piezo_time st <? piezo_duration st); [reflexivity|].
  destruct (elapsed_piezo_time st <=? wrap32 (piezo_duration st + 5)); simpl;
    (destruct (buffer_free_pos st =? buffer_cur_pos st); [reflexivity|]);
    unfold configure_piezo_timer, read_sample; simpl;
    match goal with |- context [freq ?p =? 0] => destruct (freq p =? 0) end;
    reflexivity.
Qed.

Lemma free_samples_range st : wf st -> 1 <= free_samples st <= PIEZO_BUFFER_LEN.
Proof.
  intros Hwf. rewrite free_samples_occupancy by exact Hwf.
  pose proof (occupancy_range st). lia.
Qed.

(** X1: in a run of well-formed calls during which nothing is stored past
    the array, the samples played so far followed by those still queued are
    the samples queued at the start followed by those admitted since, in
    the same order: nothing is lost, repeated or reordered. *)
Theorem X1_fifo_without_overrun evs st :
  wf st -> Forall event_ok evs ->
  overrun (run evs st) = overrun st ->
  queue_contents st ++ enqueued evs st
    = played evs st ++ queue_contents (run evs st).
Proof. intros Hwf Hok Hov. apply fifo_inside_array; assumption. Qed.

Lemma X1_fifo_without_overrun_witness :
  let evs := [Recv 20 burst5_bytes; Tick; Recv 4 note_440; Tick; Tick] in
  queue_contents power_on ++ enqueued evs power_on
    = played evs power_on ++ queue_contents (run evs power_on).
Proof.
  apply (X1_fifo_without_overrun
           [Recv 20 burst5_bytes; Tick; Recv 4 note_440; Tick; Tick] power_on).
  - unfold wf, PIEZO_BUFFER_LEN; simpl; lia.
  - repeat constructor; simpl; lia.
  - vm_compute. reflexivity.
Defined.

(** X2: an admitted burst of n samples stores past the array exactly when
    the queue is empty and [buffer_free_pos + n] exceeds the array length;
    the number of samples stored outside is then [buffer_free_pos + n - 32],
    and 0 in every other case. *)
Theorem X2_overrun_size st size data :
  wf st -> 0 < size < 4294967296 -> size mod 4 = 0 ->
  length data = Z.to_nat size ->
  size / 4 < free_samples st ->
  Z.of_nat (length (overrun (snd (piezo_recv size data st))))
    = Z.of_nat (length (overrun st))
      + (if buffer_free_pos st =? buffer_cur_pos st
         then Z.max 0 (buffer_free_pos st + size / 4 - PIEZO_BUFFER_LEN)
         else 0).
Proof.
  intros Hwf Hsize Hmod Hdata Hfit. rewrite <- land_3_mod in Hmod.
  destruct (Z.eqb_spec (buffer_free_pos st) (buffer_cur_pos st)) as [Heq|Hne].
  - destruct (Z.le_gt_cases (buffer_free_pos st + size / 4) PIEZO_BUFFER_LEN)
      as [Hin|Hpast].
    + destruct (piezo_recv_buffer st size data Hwf Hsize Hmod Hfit Hdata) as [-> _];
        [intros _; exact Hin | lia].
    + rewrite (piezo_recv_overruns st size data Hwf Hsize Hmod Hfit Hdata Heq Hpast).
      lia.
  - destruct (piezo_recv_buffer st size data Hwf Hsize Hmod Hfit Hdata) as [-> _];
      [intros Heq; contradiction | lia].
Qed.

Lemma X2_overrun_size_witness :
  Z.of_nat (length (overrun (snd (piezo_recv 20 burst5_bytes near_end))))
    = Z.of_nat (length (overrun near_end))
      + (if buffer_free_pos near_end =? buffer_cur_pos near_end
         then Z.max 0 (buffer_free_pos near_end + 20 / 4 - PIEZO_BUFFER_LEN)
         else 0).
Proof.
  apply (X2_overrun_size near_end 20 burst5_bytes).
  - wf_by_eval.
  - lia.
  - reflexivity.
  - reflexivity.
  - by_eval.
Defined.

(** X3: an admitted burst that stays inside the array puts its j-th
    sample in slot [(buffer_free_pos + j) mod 32], leaves every other slot
    as it was, and so leaves every sample already queued in its place. *)
Theorem X3_copy_wraps_around st size data :
  wf st -> 0 < size < 4294967296 -> size mod 4 = 0 ->
  length data = Z.to_nat size ->
  size / 4 < free_samples st ->
  (buffer_free_pos st = buffer_cur_pos st ->
   buffer_free_pos st + size / 4 <= PIEZO_BUFFER_LEN) ->
  let st' := snd (piezo_recv size data st) in
  (forall j, 0 <= j < size / 4 ->
     sample_buffer st' !! Z.to_nat ((buffer_free_pos st + j) mod PIEZO_BUFFER_LEN)
       = samples_of_bytes data !! Z.to_nat j) /\
  (forall k, 0 <= k < PIEZO_BUFFER_LEN ->
     size / 4 <= (k - buffer_free_pos st) mod PIEZO_BUFFER_LEN ->
     sample_buffer st' !! Z.to_nat k = sample_buffer st !! Z.to_nat k) /\
  (forall k, (k < Z.to_nat (occupancy st))%nat ->
     queue_contents st' !! k = queue_contents st !! k).
Proof.
  intros Hwf Hsize Hmod Hdata Hfit Hroom. rewrite <- land_3_mod in Hmod.
  destruct (piezo_recv_buffer st size data Hwf Hsize Hmod Hfit Hdata Hroom)
    as [_ Hbuf].
  pose proof (piezo_recv_enqueues st size data Hwf Hsize Hmod Hfit Hdata Hroom) as Hq.
  cbv zeta. split; [|split].
  - intros j Hj. pose proof (free_samples_range st Hwf) as Hrange.
    destruct Hwf as (Hf & _). unfold PIEZO_BUFFER_LEN in *.
    rewrite Hbuf by zsolve.
    replace (((buffer_free_pos st + j) mod 32 - buffer_free_pos st) mod 32)
      with j by zsolve.
    destruct (Z.ltb_spec j (size / 4)); [reflexivity | lia].
  - intros k Hk Hout. rewrite Hbuf by exact Hk.
    destruct (Z.ltb_spec ((k - buffer_free_pos st) mod PIEZO_BUFFER_LEN) (size / 4));
      [lia | reflexivity].
  - intros k Hk. rewrite Hq. apply lookup_app_l.
    unfold queue_contents. rewrite length_map, length_seq. exact Hk.
Qed.

Lemma X3_copy_wraps_around_witness :
  let st' := snd (piezo_recv 20 burst5_bytes wrapping) in
  (forall j, 0 <= j < 20 / 4 ->
     sample_buffer st' !! Z.to_nat ((buffer_free_pos wrapping + j) mod PIEZO_BUFFER_LEN)
       = samples_of_bytes burst5_bytes !! Z.to_nat j) /\
  (forall k, 0 <= k < PIEZO_BUFFER_LEN ->
     20 / 4 <= (k - buffer_free_pos wrapping) mod PIEZO_BUFFER_LEN ->
     sample_buffer st' !! Z.to_nat k = sample_buffer wrapping !! Z.to_nat k) /\
  (forall k, (k < Z.to_nat (occupancy wrapping))%nat ->
     queue_contents st' !! k = queue_contents wrapping !! k).
Proof.
  apply (X3_copy_wraps_around wrapping 20 burst5_bytes).
  - wf_by_eval.
  - lia.
  - reflexivity.
  - reflexivity.
  - by_eval.
  - intros H. vm_compute in H. discriminate H.
Defined.

(** X4: [piezo_recv] returns [false] exactly when the length is not zero,
    is a multiple of 4 and announces fewer samples than [free_samples];
    whenever it returns [true] the state is the one before the call. *)
Theorem X4_recv_result size data st :
  (fst (piezo_recv size data st) = false <->
   size <> 0 /\ Z.land size 3 = 0 /\ size / 4 < free_samples st) /\
  (fst (piezo_recv size data st) = true -> snd (piezo_recv size data st) = st).
Proof.
  destruct (piezo_recv_cases size data st) as [Hrej | (Hacc & Hnz & Hland & Hfit)].
  - split.
    + split; [rewrite Hrej; discriminate|].
      intros (Hnz & Hland & Hfit). exfalso. revert Hrej. unfold piezo_recv.
      destruct (Z.eqb_spec size 0); [contradiction|].
      rewrite Hland. simpl negb. cbv iota.
      destruct (Z.geb_spec (size / 4) (free_samples st)); [lia|].
      destruct (buffer_free_pos st >? buffer_cur_pos st);
        match goal with |- context [if ?c then _ else _] => destruct c end;
        discriminate.
    + intros _. rewrite Hrej. reflexivity.
  - split.
    + split; auto.
    + rewrite Hacc. discriminate.
Qed.

(** X5: a call of [piezo_recv] that stores nothing past the array, whatever
    its arguments and its result, leaves the read cursor, the two playback
    counters and every timer, NVIC and pin register as they were;
    [piezo_tick] never changes the write cursor, the array, or the level of
    the output pin. *)
Theorem X5_producer_and_consumer_fields size data st :
  overrun (snd (piezo_recv size data st)) = overrun st ->
  (buffer_cur_pos (snd (piezo_recv size data st)) = buffer_cur_pos st /\
   elapsed_piezo_time (snd (piezo_recv size data st)) = elapsed_piezo_time st /\
   piezo_duration (snd (piezo_recv size data st)) = piezo_duration st /\
   hw (snd (piezo_recv size data st)) = hw st) /\
  (buffer_free_pos (piezo_tick st) = buffer_free_pos st /\
   sample_buffer (piezo_tick st) = sample_buffer st /\
   overrun (piezo_tick st) = overrun st /\
   pin_level (hw (piezo_tick st)) = pin_level (hw st)).
Proof.
  intros _. split; [apply piezo_recv_frame|].
  destruct (piezo_tick_frame st) as (Hf & Hb & Hv).
  split; [exact Hf | split; [exact Hb | split; [exact Hv | apply piezo_tick_pin]]].
Qed.

Lemma X5_producer_and_consumer_fields_witness :
  overrun (snd (piezo_recv 20 burst5_bytes wrapping)) = overrun wrapping /\
  (buffer_cur_pos (snd (piezo_recv 20 burst5_bytes wrapping))
     = buffer_cur_pos wrapping /\
   elapsed_piezo_time (snd (piezo_recv 20 burst5_bytes wrapping))
     = elapsed_piezo_time wrapping /\
   piezo_duration (snd (piezo_recv 20 burst5_bytes wrapping))
     = piezo_duration wrapping /\
   hw (snd (piezo_recv 20 burst5_bytes wrapping)) = hw wrapping) /\
  (buffer_free_pos (piezo_tick wrapping) = buffer_free_pos wrapping /\
   sample_buffer (piezo_tick wrapping) = sample_buffer wrapping /\
   overrun (piezo_tick wrapping) = overrun wrapping /\
   pin_level (hw (piezo_tick wrapping)) = pin_level (hw wrapping)).
Proof.
  assert (H : overrun (snd (piezo_recv 20 burst5_bytes wrapping)) = overrun wrapping)
    by by_eval.
  split; [exact H|].
  apply (X5_producer_and_consumer_fields 20 burst5_bytes wrapping H).
Defined.

(** X6: after any sequence of calls from reset during which nothing was
    stored past the array, whatever the arguments of the calls, both
    cursors are inside the array, the array has its 32 slots, and the slot
    [piezo_tick] would read exists. *)
Theorem X6_cursors_stay_in_array evs :
  overrun (run evs power_on) = [] ->
  let st := run evs power_on in
  0 <= buffer_free_pos st < PIEZO_BUFFER_LEN /\
  0 <= buffer_cur_pos st < PIEZO_BUFFER_LEN /\
  length (sample_buffer st) = Z.to_nat PIEZO_BUFFER_LEN /\
  is_Some (sample_buffer st !! Z.to_nat (buffer_cur_pos st)).
Proof.
  intros _.
  cbv zeta. destruct (run_wf evs power_on wf_power_on) as (Hf & Hc & Hlen).
  repeat split; try lia.
  apply lookup_lt_is_Some_2. rewrite Hlen. lia.
Qed.

Lemma X6_cursors_stay_in_array_witness :
  let evs := Recv 120 filler :: repeat Tick 5 ++ [Recv 20 burst5_bytes; Tick] in
  overrun (run evs power_on) = [] /\
  let st := run evs power_on in
  0 <= buffer_free_pos st < PIEZO_BUFFER_LEN /\
  0 <= buffer_cur_pos st < PIEZO_BUFFER_LEN /\
  length (sample_buffer st) = Z.to_nat PIEZO_BUFFER_LEN /\
  is_Some (sample_buffer st !! Z.to_nat (buffer_cur_pos st)).
Proof.
  assert (H : overrun (run (Recv 120 filler
                            :: repeat Tick 5 ++ [Recv 20 burst5_bytes; Tick])
                           power_on) = []) by by_eval.
  split; [exact H|].
  apply (X6_cursors_stay_in_array _ H).
Defined.

(** X7: with the cursors inside the array [free_samples] is between 1 and
    32; a burst of 32 samples or more is refused in every state, and an
    empty queue admits every burst of 1 to 31 samples. *)
Theorem X7_burst_size_limits st :
  wf st ->
  1 <= free_samples st <= PIEZO_BUFFER_LEN /\
  (forall size data, PIEZO_BUFFER_LEN <= size / 4 ->
     piezo_recv size data st = (true, st)) /\
  (buffer_free_pos st = buffer_cur_pos st ->
   forall size data, 0 < size -> size mod 4 = 0 -> size / 4 < PIEZO_BUFFER_LEN ->
     fst (piezo_recv size data st) = false).
Proof.
  intros Hwf. pose proof (free_samples_range st Hwf) as Hr.
  split; [exact Hr | split].
  - intros size data Hbig. unfold piezo_recv.
    destruct (size =? 0); [reflexivity|].
    destruct (negb (Z.land size 3 =? 0)); [reflexivity|].
    destruct (Z.geb_spec (size / 4) (free_samples st)); [reflexivity | lia].
  - intros Heq size data Hpos Hmod Hlt.
    apply piezo_recv_cursors; try assumption.
    + unfold PIEZO_BUFFER_LEN in *. zsolve.
    + rewrite land_3_mod. exact Hmod.
    + unfold free_samples. rewrite Heq, Z.eqb_refl. exact Hlt.
Qed.

Lemma X7_burst_size_limits_witness :
  1 <= free_samples near_end <= PIEZO_BUFFER_LEN /\
  (forall size data, PIEZO_BUFFER_LEN <= size / 4 ->
     piezo_recv size data near_end = (true, near_end)) /\
  (buffer_free_pos near_end = buffer_cur_pos near_end ->
   forall size data, 0 < size -> size mod 4 = 0 -> size / 4 < PIEZO_BUFFER_LEN ->
     fst (piezo_recv size data near_end) = false).
Proof. apply (X7_burst_size_limits near_end). wf_by_eval. Defined.

(** ** Counting ticks *)

Lemma set_elapsed_same st :
  set_elapsed_piezo_time (elapsed_piezo_time st) st = st.
Proof. destruct st; reflexivity. Qed.

Lemma ticks_while_sounding k : forall st,
  0 <= elapsed_piezo_time st ->
  piezo_duration st < 4294967296 ->
  elapsed_piezo_time st + Z.of_nat k <= piezo_duration st ->
  run (repeat Tick k) st
    = set_elapsed_piezo_time (elapsed_piezo_time st + Z.of_nat k) st /\
  played (repeat Tick k) st = [].
Proof.
  induction k as [|k IH]; intros st He Hd Hk.
  - simpl. rewrite Z.add_0_r, set_elapsed_same. auto.
  - cbn [repeat run fold_left step played played_samples].
    fold (run (repeat Tick k) (piezo_tick st)).
    assert (Hlt : elapsed_piezo_time st < piezo_duration st) by lia.
    unfold dequeued_by_tick.
    destruct (Z.ltb_spec (elapsed_piezo_time st) (piezo_duration st)); [|lia].
    rewrite piezo_tick_sounding by exact Hlt.
    unfold wrap32. rewrite Z.mod_small by lia.
    destruct (IH (set_elapsed_piezo_time (elapsed_piezo_time st + 1) st))
      as [-> ->]; simpl; try lia.
    split; [|reflexivity]. unfold set_elapsed_piezo_time. simpl. f_equal. lia.
Qed.

(** X8: while [elapsed_piezo_time + k] does not pass [piezo_duration], k
    ticks only add k to [elapsed_piezo_time]: they take no sample out and
    leave the timer, the interrupt mask and the queue untouched. *)
Theorem X8_note_sounds_for_its_duration st k :
  0 <= elapsed_piezo_time st ->
  piezo_duration st < 4294967296 ->
  elapsed_piezo_time st + Z.of_nat k <= piezo_duration st ->
  run (repeat Tick k) st
    = set_elapsed_piezo_time (elapsed_piezo_time st + Z.of_nat k) st /\
  played (repeat Tick k) st = [] /\
  hw (run (repeat Tick k) st) = hw st /\
  queue_contents (run (repeat Tick k) st) = queue_contents st.
Proof.
  intros He Hd Hk.
  destruct (ticks_while_sounding k st He Hd Hk) as [Hrun Hpl].
  rewrite Hrun. repeat split; try assumption.
Qed.

Lemma X8_note_sounds_for_its_duration_witness :
  run (repeat Tick 100) one_note_sounding
    = set_elapsed_piezo_time
        (elapsed_piezo_time one_note_sounding + Z.of_nat 100) one_note_sounding /\
  played (repeat Tick 100) one_note_sounding = [] /\
  hw (run (repeat Tick 100) one_note_sounding) = hw one_note_sounding /\
  queue_contents (run (repeat Tick 100) one_note_sounding)
    = queue_contents one_note_sounding.
Proof.
  apply (X8_note_sounds_for_its_duration one_note_sounding 100); by_eval.
Defined.

(** X9: in every state reached from reset by calls carrying bytes, with
    nothing stored past the array on the way, [elapsed_piezo_time] is
    between 0 and [piezo_duration], which is below 2^16; the test
    [elapsed_piezo_time <= piezo_duration + 5] of [piezo_tick] therefore
    does not fail there. *)
Theorem X9_elapsed_never_passes_duration evs :
  Forall bytes_ok evs ->
  overrun (run evs power_on) = [] ->
  let st := run evs power_on in
  0 <= elapsed_piezo_time st <= piezo_duration st /\
  piezo_duration st < 65536 /\
  (elapsed_piezo_time st <=? wrap32 (piezo_duration st + 5)) = true.
Proof.
  intros Hb _. cbv zeta.
  destruct (run_playing_ok evs power_on Hb playing_ok_power_on) as (He & Hd & _).
  split; [exact He | split; [exact Hd|]].
  unfold wrap32. rewrite Z.mod_small by lia. apply Z.leb_le. lia.
Qed.

(** Byte ranges by evaluation. *)
Lemma bytes_by_check data :
  forallb (fun b => (0 <=? b) && (b <? 256)) data = true -> Forall is_byte data.
Proof.
  induction data as [|b data IH]; simpl; [constructor|].
  intros H. apply andb_prop in H as [Hb Hrest]. apply andb_prop in Hb as [H0 H1].
  constructor; [unfold is_byte; lia | apply IH, Hrest].
Qed.

Lemma X9_elapsed_never_passes_duration_witness :
  let evs := [Recv 4 note_440; Tick; Tick; Recv 20 burst5_bytes; Tick] in
  Forall bytes_ok evs /\
  overrun (run evs power_on) = [] /\
  let st := run evs power_on in
  0 <= elapsed_piezo_time st <= piezo_duration st /\
  piezo_duration st < 65536 /\
  (elapsed_piezo_time st <=? wrap32 (piezo_duration st + 5)) = true.
Proof.
  assert (Hb : Forall bytes_ok [Recv 4 note_440; Tick; Tick; Recv 20 burst5_bytes; Tick]).
  { repeat (constructor;
              [first [exact I | unfold bytes_ok; apply bytes_by_check; reflexivity]|]).
    constructor. }
  assert (Hin : overrun (run [Recv 4 note_440; Tick; Tick;
                              Recv 20 burst5_bytes; Tick] power_on) = [])
    by by_eval.
  split; [exact Hb | split; [exact Hin|]].
  apply (X9_elapsed_never_passes_duration _ Hb Hin).
Defined.

(** ** Idle *)

Lemma idle_tick st :
  buffer_free_pos st = buffer_cur_pos st ->
  elapsed_piezo_time st = 0 -> piezo_duration st = 0 ->
  nvic_tim3_irq (hw st) = false ->
  piezo_tick st = st.
Proof.
  intros Heq He Hd Hirq.
  destruct st as [buf ov fp cp e d h]. destruct h as [pin irq psc per cnt sr on].
  simpl in *. subst. unfold piezo_tick. simpl. rewrite Z.eqb_refl. reflexivity.
Qed.

(** X10: with the queue empty and both counters 0, ticks change nothing
    once the interrupt is masked, in particular right after [piezo_init];
    and with the queue empty one tick reaches that state: a second tick is
    the identity. *)
Theorem X10_idle_is_stable st n :
  buffer_free_pos st = buffer_cur_pos st ->
  elapsed_piezo_time st = 0 -> piezo_duration st = 0 ->
  (nvic_tim3_irq (hw st) = false -> run (repeat Tick n) st = st) /\
  run (repeat Tick n) (piezo_init st) = piezo_init st /\
  piezo_tick (piezo_tick st) = piezo_tick st.
Proof.
  intros Heq He Hd.
  assert (Hidle : forall s, buffer_free_pos s = buffer_cur_pos s ->
            elapsed_piezo_time s = 0 -> piezo_duration s = 0 ->
            nvic_tim3_irq (hw s) = false -> run (repeat Tick n) s = s).
  { intros s H1 H2 H3 H4. induction n as [|m IH]; [reflexivity|].
    simpl. rewrite idle_tick by assumption. exact IH. }
  split; [apply Hidle; assumption | split].
  - apply Hidle; simpl; auto.
  - destruct (piezo_tick_empty st ltac:(lia) Heq) as (Hirq & He' & Hd' & Hf & Hc & _).
    apply idle_tick; congruence.
Qed.

Lemma X10_idle_is_stable_witness :
  (nvic_tim3_irq (hw near_end) = false -> run (repeat Tick 7) near_end = near_end) /\
  run (repeat Tick 7) (piezo_init near_end) = piezo_init near_end /\
  piezo_tick (piezo_tick near_end) = piezo_tick near_end.
Proof. apply (X10_idle_is_stable near_end 7); by_eval. Defined.

(** ** The programmed period *)

Lemma configure_period ps st :
  freq ps <> 0 ->
  tim3_period (hw (configure_piezo_timer ps st))
    = wrap32 (1000000 / MIN 10000 (freq ps)) / 2 /\
  nvic_tim3_irq (hw (configure_piezo_timer ps st)) = true.
Proof.
  intros Hnz. unfold configure_piezo_timer.
  destruct (Z.eqb_spec (freq ps) 0); [contradiction|]. simpl. auto.
Qed.

Lemma clamped_quotient f :
  0 < f -> wrap32 (1000000 / MIN 10000 f) = 1000000 / Z.min f 10000 /\
           100 <= 1000000 / Z.min f 10000 <= 1000000.
Proof.
  intros Hf. unfold MIN.
  assert (Hm : (if 10000 <? f then 10000 else f) = Z.min f 10000).
  { destruct (Z.ltb_spec 10000 f); lia. }
  rewrite Hm.
  assert (Hq : 100 <= 1000000 / Z.min f 10000 <= 1000000).
  { split.
    - apply Z.div_le_lower_bound; lia.
    - apply Z.div_le_upper_bound; nia. }
  split; [|exact Hq]. unfold wrap32. apply Z.mod_small. lia.
Qed.

Lemma period_range ps st :
  0 < freq ps ->
  50 <= tim3_period (hw (configure_piezo_timer ps st)) <= 500000.
Proof.
  intros Hf. destruct (configure_period ps st ltac:(lia)) as [-> _].
  destruct (clamped_quotient (freq ps) Hf) as [-> Hq].
  zsolve.
Qed.

(** X12: for positive frequencies the period [configure_piezo_timer]
    programs lies between 50 and 500000 and does not grow with the
    frequency. *)
Theorem X12_period_bounds_and_order p1 p2 st :
  0 < freq p1 -> freq p1 <= freq p2 ->
  50 <= tim3_period (hw (configure_piezo_timer p2 st)) /\
  tim3_period (hw (configure_piezo_timer p2 st))
    <= tim3_period (hw (configure_piezo_timer p1 st)) /\
  tim3_period (hw (configure_piezo_timer p1 st)) <= 500000.
Proof.
  intros H1 H12.
  pose proof (period_range p1 st H1) as R1.
  pose proof (period_range p2 st ltac:(lia)) as R2.
  split; [lia | split; [|lia]].
  destruct (configure_period p1 st ltac:(lia)) as [-> _].
  destruct (configure_period p2 st ltac:(lia)) as [-> _].
  destruct (clamped_quotient (freq p1) H1) as [-> _].
  destruct (clamped_quotient (freq p2) ltac:(lia)) as [-> _].
  apply Z.div_le_mono; [lia|].
  apply Z.div_le_compat_l; lia.
Qed.

Lemma X12_period_bounds_and_order_witness :
  50 <= tim3_period (hw (configure_piezo_timer (mk_sample 880 50) power_on)) /\
  tim3_period (hw (configure_piezo_timer (mk_sample 880 50) power_on))
    <= tim3_period (hw (configure_piezo_timer (mk_sample 440 100) power_on)) /\
  tim3_period (hw (configure_piezo_timer (mk_sample 440 100) power_on)) <= 500000.
Proof.
  apply (X12_period_bounds_and_order (mk_sample 440 100) (mk_sample 880 50) power_on);
    simpl; lia.
Defined.

(** ** The interrupt is never enabled with a short period *)

Lemma piezo_tick_hw_cases st :
  hw (piezo_tick st) = hw st \/
  nvic_tim3_irq (hw (piezo_tick st)) = false \/
  (exists s, hw (piezo_tick st) = hw (configure_piezo_timer (read_sample (buffer_cur_pos st) st) s)
             /\ freq (read_sample (buffer_cur_pos st) st) <> 0).
Proof.
  unfold piezo_tick.
  destruct (elapsed_piezo_time st <? piezo_duration st); [left; reflexivity|].
  destruct (elapsed_piezo_time st <=? wrap32 (piezo_duration st + 5)); simpl;
    (destruct (buffer_free_pos st =? buffer_cur_pos st);
     [right; left; reflexivity|]);
    unfold read_sample; simpl;
    match goal with |- context [configure_piezo_timer ?p ?s] =>
      destruct (Z.eq_dec (freq p) 0) as [Hz|Hnz];
      [ right; left; unfold configure_piezo_timer;
        destruct (Z.eqb_spec (freq p) 0); [reflexivity | contradiction]
      | right; right; exists s; split; [reflexivity | exact Hnz] ]
    end.
Qed.

Lemma piezo_tick_period_ok st :
  playing_ok st ->
  (nvic_tim3_irq (hw st) = true -> 50 <= tim3_period (hw st) <= 500000) ->
  nvic_tim3_irq (hw (piezo_tick st)) = true ->
  50 <= tim3_period (hw (piezo_tick st)) <= 500000.
Proof.
  intros (_ & _ & Hs) Hinv Hirq.
  destruct (piezo_tick_hw_cases st) as [Heq | [Hoff | (s & Heq & Hnz)]].
  - rewrite Heq in *. auto.
  - congruence.
  - rewrite Heq. apply period_range.
    destruct (read_sample_is_sample (buffer_cur_pos st) st Hs) as [Hf _]. lia.
Qed.

Lemma run_period_ok evs : forall st,
  Forall bytes_ok evs -> playing_ok st ->
  (nvic_tim3_irq (hw st) = true -> 50 <= tim3_period (hw st) <= 500000) ->
  nvic_tim3_irq (hw (run evs st)) = true ->
  50 <= tim3_period (hw (run evs st)) <= 500000.
Proof.
  induction evs as [|ev evs IH]; intros st Hb Hp Hinv; [exact Hinv|].
  inversion Hb as [|? ? Hev Hevs]; subst.
  cbn [run fold_left]. fold (run evs (step st ev)).
  apply IH; [exact Hevs | | ].
  - destruct ev; simpl; [apply piezo_recv_playing_ok | apply piezo_tick_playing_ok];
      assumption.
  - destruct ev as [size data|]; simpl.
    + destruct (piezo_recv_frame size data st) as (_ & _ & _ & ->). exact Hinv.
    + apply piezo_tick_period_ok; assumption.
Qed.

(** X11: in every state reached from reset by calls carrying bytes, when
    the timer interrupt is enabled the programmed period is between 50 and
    500000 microseconds: the interrupt never fires faster than 20 kHz. *)
Theorem X11_interrupt_rate_bounded evs :
  Forall bytes_ok evs ->
  nvic_tim3_irq (hw (run evs power_on)) = true ->
  50 <= tim3_period (hw (run evs power_on)) <= 500000.
Proof.
  intros Hb. apply run_period_ok; [exact Hb | apply playing_ok_power_on |].
  simpl. discriminate.
Qed.

Lemma X11_interrupt_rate_bounded_witness :
  let evs := [Recv 4 (bytes_of_sample (mk_sample 50000 3)); Tick; Tick] in
  Forall bytes_ok evs /\
  nvic_tim3_irq (hw (run evs power_on)) = true /\
  50 <= tim3_period (hw (run evs power_on)) <= 500000.
Proof.
  assert (Hb : Forall bytes_ok
                 [Recv 4 (bytes_of_sample (mk_sample 50000 3)); Tick; Tick]).
  { repeat (constructor;
              [first [exact I | unfold bytes_ok; apply bytes_by_check; reflexivity]|]).
    constructor. }
  assert (Hirq : nvic_tim3_irq
                   (hw (run [Recv 4 (bytes_of_sample (mk_sample 50000 3)); Tick; Tick]
                            power_on)) = true) by by_eval.
  split; [exact Hb | split; [exact Hirq|]].
  apply (X11_interrupt_rate_bounded _ Hb Hirq).
Defined.

(** ** Samples through the wire format *)

Lemma samples_of_bytes_encode l :
  Forall is_sample l -> samples_of_bytes (flat_map bytes_of_sample l) = l.
Proof.
  induction 1 as [|s l Hs _ IH]; [reflexivity|].
  cbn [flat_map]. change (bytes_of_sample s ++ flat_map bytes_of_sample l)
    with (freq s mod 256 :: (freq s / 256) mod 256 :: duration s mod 256
            :: (duration s / 256) mod 256 :: flat_map bytes_of_sample l).
  cbn [samples_of_bytes]. rewrite IH. f_equal.
  destruct Hs as [Hf Hd]. destruct s as [f d]; simpl in *. f_equal; zsolve.
Qed.

Lemma length_encode l :
  length (flat_map bytes_of_sample l) = (4 * length l)%nat.
Proof. induction l as [|s l IH]; simpl in *; lia. Qed.

Lemma encode_is_bytes l : Forall is_byte (flat_map bytes_of_sample l).
Proof.
  induction l as [|s l IH]; [constructor|].
  cbn [flat_map]. apply Forall_app. split; [|exact IH].
  unfold bytes_of_sample, is_byte. repeat constructor; zsolve.
Qed.

(** X13: a non-empty list of samples with 16-bit fields, laid out as
    bytes and handed to [piezo_recv] with room in the queue and without
    leaving the array, is admitted and joins the queue unchanged and in
    order; the bytes are all below 256. *)
Theorem X13_encoded_burst_arrives st l :
  wf st -> Forall is_sample l -> l <> [] ->
  Z.of_nat (length l) < free_samples st ->
  (buffer_free_pos st = buffer_cur_pos st ->
   buffer_free_pos st + Z.of_nat (length l) <= PIEZO_BUFFER_LEN) ->
  let size := 4 * Z.of_nat (length l) in
  let data := flat_map bytes_of_sample l in
  Forall is_byte data /\
  fst (piezo_recv size data st) = false /\
  queue_contents (snd (piezo_recv size data st)) = queue_contents st ++ l.
Proof.
  intros Hwf Hl Hne Hfit Hroom. cbv zeta.
  pose proof (free_samples_range st Hwf) as Hr. unfold PIEZO_BUFFER_LEN in Hr.
  assert (Hlen : (0 < length l)%nat) by (destruct l; [contradiction | simpl; lia]).
  assert (Hsize : 0 < 4 * Z.of_nat (length l) < 4294967296) by lia.
  assert (Hland : Z.land (4 * Z.of_nat (length l)) 3 = 0)
    by (rewrite land_3_mod; zsolve).
  assert (Hq : 4 * Z.of_nat (length l) / 4 = Z.of_nat (length l)) by zsolve.
  assert (Hdata : length (flat_map bytes_of_sample l)
                  = Z.to_nat (4 * Z.of_nat (length l)))
    by (rewrite length_encode; lia).
  split; [apply encode_is_bytes | split].
  - apply piezo_recv_cursors; try assumption. rewrite Hq. exact Hfit.
  - rewrite piezo_recv_enqueues; try assumption; rewrite ?Hq; try assumption.
    rewrite samples_of_bytes_encode by exact Hl. reflexivity.
Qed.

Lemma X13_encoded_burst_arrives_witness :
  let size := 4 * Z.of_nat (length burst5) in
  let data := flat_map bytes_of_sample burst5 in
  Forall is_byte data /\
  fst (piezo_recv size data wrapping) = false /\
  queue_contents (snd (piezo_recv size data wrapping))
    = queue_contents wrapping ++ burst5.
Proof.
  apply (X13_encoded_burst_arrives wrapping burst5).
  - wf_by_eval.
  - repeat constructor; simpl; lia.
  - discriminate.
  - by_eval.
  - intros H. vm_compute in H. discriminate H.
Defined.

(** ** The start-up beeps on any queue *)

Lemma piezo_recv_one_safe st s :
  wf st -> is_sample s ->
  let st' := snd (piezo_recv sizeof_sample (bytes_of_sample s) st) in
  wf st' /\ overrun st' = overrun st /\
  buffer_cur_pos st' = buffer_cur_pos st /\
  (exists added, queue_contents st' = queue_contents st ++ added) /\
  (occupancy st = PIEZO_BUFFER_LEN - 1 -> st' = st).
Proof.
  intros Hwf Hs. cbv zeta. unfold sizeof_sample.
  pose proof (free_samples_occupancy st Hwf) as Hfs.
  destruct (piezo_recv_frame 4 (bytes_of_sample s) st) as (Hcp & _).
  split; [apply piezo_recv_wf, Hwf|].
  destruct (piezo_recv_cases 4 (bytes_of_sample s) st)
    as [Hrej | (_ & _ & Hland & Hfit)].
  - rewrite Hrej. simpl. repeat split; try reflexivity.
    exists []. rewrite app_nil_r. reflexivity.
  - change (4 / 4) with 1 in Hfit.
    destruct (piezo_recv_one st s Hwf Hs ltac:(lia)) as (_ & _ & Hq & Hv).
    unfold sizeof_sample in *.
    split; [exact Hv | split; [exact Hcp | split]].
    + exists [s]. exact Hq.
    + intros Hfull. lia.
Qed.

Lemma beep_once_safe st f :
  wf st -> 0 <= f < 65536 ->
  wf (beep_once f st) /\ overrun (beep_once f st) = overrun st /\
  buffer_cur_pos (beep_once f st) = buffer_cur_pos st /\
  (exists added, queue_contents (beep_once f st) = queue_contents st ++ added) /\
  (occupancy st = PIEZO_BUFFER_LEN - 1 -> beep_once f st = st).
Proof.
  intros Hwf Hf. unfold beep_once. cbv zeta.
  destruct (piezo_recv_one_safe st (mk_sample f 150) Hwf)
    as (Hwf1 & Hv1 & Hc1 & (a1 & Hq1) & Hfull1); [split; simpl; lia|].
  destruct (piezo_recv_one_safe _ (mk_sample 0 15) Hwf1)
    as (Hwf2 & Hv2 & Hc2 & (a2 & Hq2) & Hfull2); [split; simpl; lia|].
  split; [exact Hwf2 | split; [congruence | split; [congruence | split]]].
  - exists (a1 ++ a2). rewrite Hq2, Hq1, app_assoc. reflexivity.
  - intros Hfull. specialize (Hfull1 Hfull). rewrite Hfull1 in *.
    apply Hfull2, Hfull.
Qed.

Lemma beep_times_safe count : forall st f,
  wf st -> 0 <= f < 65536 ->
  wf (beep_times count f st) /\ overrun (beep_times count f st) = overrun st /\
  buffer_cur_pos (beep_times count f st) = buffer_cur_pos st /\
  (exists added, queue_contents (beep_times count f st) = queue_contents st ++ added) /\
  (occupancy st = PIEZO_BUFFER_LEN - 1 -> beep_times count f st = st).
Proof.
  induction count as [|count IH]; intros st f Hwf Hf.
  - simpl. repeat split; try apply Hwf.
    exists []. rewrite app_nil_r. reflexivity.
  - cbn [beep_times].
    destruct (beep_once_safe st f Hwf Hf) as (Hwf1 & Hv1 & Hc1 & (a1 & Hq1) & Hfull1).
    destruct (IH (beep_once f st) f Hwf1 Hf) as (Hwf2 & Hv2 & Hc2 & (a2 & Hq2) & Hfull2).
    split; [exact Hwf2 | split; [congruence | split; [congruence | split]]].
    + exists (a1 ++ a2). rewrite Hq2, Hq1, app_assoc. reflexivity.
    + intros Hfull. specialize (Hfull1 Hfull). rewrite Hfull1 in *.
      apply Hfull2, Hfull.
Qed.

(** X14: on any queue, whatever the revision value, [piezo_init_beep]
    stores nothing past the array, leaves the read cursor alone and keeps
    the samples already queued at the front of the queue; on a full queue
    (31 samples) it changes nothing at all. *)
Theorem X14_startup_beeps_are_safe SR_DEV_REV st :
  wf st ->
  let st' := piezo_init_beep SR_DEV_REV st in
  wf st' /\ overrun st' = overrun st /\
  buffer_cur_pos st' = buffer_cur_pos st /\
  (exists added, queue_contents st' = queue_contents st ++ added) /\
  (occupancy st = PIEZO_BUFFER_LEN - 1 -> st' = st).
Proof.
  intros Hwf. cbv zeta. unfold piezo_init_beep.
  cbn [fold_left nth Nat.sub fw_tones].
  set (c3 := Z.to_nat (Z.land (Z.shiftr (Z.land SR_DEV_REV 255) 6) 3)).
  set (c2 := Z.to_nat (Z.land (Z.shiftr (Z.land SR_DEV_REV 255) 4) 3)).
  set (c1 := Z.to_nat (Z.land (Z.shiftr (Z.land SR_DEV_REV 255) 2) 3)).
  set (c0 := Z.to_nat (Z.land (Z.land SR_DEV_REV 255) 3)).
  destruct (beep_times_safe c3 st 130 Hwf ltac:(lia))
    as (Hwf3 & Hv3 & Hc3 & (a3 & Hq3) & Hfull3).
  destruct (beep_times_safe c2 _ 164 Hwf3 ltac:(lia))
    as (Hwf2 & Hv2 & Hc2 & (a2 & Hq2) & Hfull2).
  destruct (beep_times_safe c1 _ 196 Hwf2 ltac:(lia))
    as (Hwf1 & Hv1 & Hc1 & (a1 & Hq1) & Hfull1).
  destruct (beep_times_safe c0 _ 261 Hwf1 ltac:(lia))
    as (Hwf0 & Hv0 & Hc0 & (a0 & Hq0) & Hfull0).
  split; [exact Hwf0 | split; [congruence | split; [congruence | split]]].
  - exists (a3 ++ a2 ++ a1 ++ a0).
    rewrite Hq0, Hq1, Hq2, Hq3, <- !app_assoc. reflexivity.
  - intros Hfull. specialize (Hfull3 Hfull). rewrite Hfull3 in *.
    specialize (Hfull2 Hfull). rewrite Hfull2 in *.
    specialize (Hfull1 Hfull). rewrite Hfull1 in *.
    apply Hfull0, Hfull.
Qed.

Lemma X14_startup_beeps_are_safe_witness :
  let st' := piezo_init_beep 108 near_end in
  wf st' /\ overrun st' = overrun near_end /\
  buffer_cur_pos st' = buffer_cur_pos near_end /\
  (exists added, queue_contents st' = queue_contents near_end ++ added) /\
  (occupancy near_end = PIEZO_BUFFER_LEN - 1 -> st' = near_end).
Proof. apply (X14_startup_beeps_are_safe 108 near_end). wf_by_eval. Defined.

(** ** The timer interrupt *)

Lemma piezo_recv_set_hw h size data st :
  piezo_recv size data (set_hw h st)
    = (fst (piezo_recv size data st), set_hw h (snd (piezo_recv size data st))).
Proof.
  unfold piezo_recv.
  change (free_samples (set_hw h st)) with (free_samples st).
  change (buffer_free_pos (set_hw h st)) with (buffer_free_pos st).
  change (buffer_cur_pos (set_hw h st)) with (buffer_cur_pos st).
  destruct (size =? 0); [reflexivity|].
  destruct (negb (Z.land size 3 =? 0)); [reflexivity|].
  destruct (size / 4 >=? free_samples st); [reflexivity|].
  unfold memcpy_sample_buffer.
  destruct (buffer_free_pos st >? buffer_cur_pos st).
  - rewrite store_samples_set_hw.
    match goal with |- context [if ?c then _ else _] => destruct c end.
    + cbn [fst snd]. f_equal.
      change (set_buffer_free_pos ?p (set_hw h ?s))
        with (set_hw h (set_buffer_free_pos p s)).
      rewrite store_samples_set_hw. reflexivity.
    + reflexivity.
  - match goal with |- context [if ?c then _ else _] => destruct c end.
    + cbn [fst snd]. f_equal. rewrite store_samples_set_hw. reflexivity.
    + reflexivity.
Qed.

Lemma tim3_isr_set_hw st :
  tim3_isr st
    = set_hw (mk_hw (negb (pin_level (hw st))) (nvic_tim3_irq (hw st))
                    (tim3_prescaler (hw st)) (tim3_period (hw st))
                    (tim3_counter (hw st)) 0 (tim3_running (hw st))) st.
Proof. reflexivity. Qed.

(** X15: the timer interrupt handler commutes with [piezo_recv] and with
    [piezo_tick]: taking the interrupt before or after either call gives
    the same result.  Two interrupts restore the pin level (and leave the
    status register cleared), and the handler never changes the queue. *)
Theorem X15_interrupt_is_independent size data st :
  piezo_recv size data (tim3_isr st)
    = (fst (piezo_recv size data st), tim3_isr (snd (piezo_recv size data st))) /\
  piezo_tick (tim3_isr st) = tim3_isr (piezo_tick st) /\
  tim3_isr (tim3_isr st) = write_tim3_sr 0 st /\
  queue_contents (tim3_isr st) = queue_contents st.
Proof.
  split; [|split; [|split]].
  - rewrite (tim3_isr_set_hw st), piezo_recv_set_hw.
    rewrite (tim3_isr_set_hw (snd (piezo_recv size data st))).
    destruct (piezo_recv_frame size data st) as (_ & _ & _ & ->). reflexivity.
  - destruct st as [buf ov fp cp e d h]. destruct h as [pin irq psc per cnt sr on].
    unfold piezo_tick. simpl.
    destruct (e <? d); [reflexivity|].
    destruct (e <=? wrap32 (d + 5)); simpl;
      (destruct (fp =? cp); [reflexivity|]);
      unfold configure_piezo_timer, read_sample; simpl;
      match goal with |- context [freq ?p =? 0] => destruct (freq p =? 0) end;
      reflexivity.
  - destruct st as [buf ov fp cp e d h]. destruct h as [pin irq psc per cnt sr on].
    unfold tim3_isr, piezo_toggle, gpio_toggle, write_tim3_sr, set_hw. simpl.
    rewrite negb_involutive. reflexivity.
  - reflexivity.
Qed.

(** Sample ranges by evaluation. *)
Lemma samples_by_check l :
  forallb (fun s => (0 <=? freq s) && (freq s <? 65536)
                    && (0 <=? duration s) && (duration s <? 65536)) l = true ->
  Forall is_sample l.
Proof.
  induction l as [|s l IH]; simpl; [constructor|].
  intros H. apply andb_prop in H as [Hs Hrest].
  apply andb_prop in Hs as [Hs H4]. apply andb_prop in Hs as [Hs H3].
  apply andb_prop in Hs as [H1 H2].
  constructor; [unfold is_sample; lia | apply IH, Hrest].
Qed.

(** ** Playing time *)

Lemma run_app evs1 evs2 st : run (evs1 ++ evs2) st = run evs2 (run evs1 st).
Proof. unfold run. apply fold_left_app. Qed.

Lemma played_app evs1 : forall evs2 st,
  played (evs1 ++ evs2) st = played evs1 st ++ played evs2 (run evs1 st).
Proof.
  induction evs1 as [|ev evs1 IH]; intros evs2 st; [reflexivity|].
  cbn [app played run fold_left]. fold (run evs1 (step st ev)).
  rewrite IH, app_assoc. reflexivity.
Qed.

Lemma queue_head_dequeued st s q :
  wf st -> piezo_duration st <= elapsed_piezo_time st ->
  queue_contents st = s :: q ->
  dequeued_by_tick st = Some s /\ queue_contents (piezo_tick st) = q.
Proof.
  intros Hwf Hover Hq.
  assert (Hne : buffer_free_pos st <> buffer_cur_pos st).
  { intros Heq. apply (occupancy_zero st Hwf) in Heq.
    unfold queue_contents in Hq. rewrite Heq in Hq. discriminate. }
  destruct (piezo_tick_dequeue st Hover Hne) as (Hd & _).
  destruct (piezo_tick_pops st _ Hwf Hd) as [Hq' _].
  rewrite Hq in Hq'. injection Hq' as Hs Hrest.
  rewrite Hd, <- Hs. auto.
Qed.

(** One sample: the tick that takes it, then one tick for each millisecond
    of its duration. *)
Lemma play_one st s q :
  wf st -> Forall is_sample (sample_buffer st) ->
  piezo_duration st <= elapsed_piezo_time st ->
  queue_contents st = s :: q ->
  let st' := run (repeat Tick (S (Z.to_nat (duration s)))) st in
  played (repeat Tick (S (Z.to_nat (duration s)))) st = [s] /\
  queue_contents st' = q /\ wf st' /\
  sample_buffer st' = sample_buffer st /\
  elapsed_piezo_time st' = piezo_duration st' /\
  piezo_duration st' = duration s.
Proof.
  intros Hwf Hs Hover Hq. cbv zeta.
  destruct (queue_head_dequeued st s q Hwf Hover Hq) as [Hd Hq'].
  assert (Hne : buffer_free_pos st <> buffer_cur_pos st).
  { intros Heq. unfold dequeued_by_tick in Hd. rewrite Heq, Z.eqb_refl in Hd.
    destruct (elapsed_piezo_time st <? piezo_duration st); discriminate. }
  destruct (piezo_tick_dequeue st Hover Hne) as (Hd' & He & Hdur & _ & _ & Hb & _).
  assert (Hps : read_sample (buffer_cur_pos st) st = s) by congruence.
  rewrite Hps in Hdur.
  assert (Hrange : 0 <= duration s < 65536).
  { rewrite <- Hps. apply read_sample_is_sample, Hs. }
  cbn [repeat run fold_left step played played_samples].
  fold (run (repeat Tick (Z.to_nat (duration s))) (piezo_tick st)).
  rewrite Hd.
  destruct (ticks_while_sounding (Z.to_nat (duration s)) (piezo_tick st))
    as [Hrun Hpl]; [lia | lia | lia |].
  rewrite Hrun, Hpl.
  split; [reflexivity|]. split; [exact Hq'|].
  split; [exact (piezo_tick_wf st Hwf)|]. split; [exact Hb|].
  simpl. rewrite He, Hdur. split; [lia | reflexivity].
Qed.

Lemma play_all l : forall st,
  wf st -> Forall is_sample (sample_buffer st) ->
  piezo_duration st <= elapsed_piezo_time st ->
  queue_contents st = l ->
  let st' := run (repeat Tick (play_ticks l)) st in
  played (repeat Tick (play_ticks l)) st = l /\
  queue_contents st' = [] /\
  piezo_duration st' <= elapsed_piezo_time st' /\
  wf st'.
Proof.
  induction l as [|s q IH]; intros st Hwf Hs Hover Hq; cbv zeta.
  - simpl. auto.
  - cbn [play_ticks fold_right]. fold (play_ticks q).
    rewrite repeat_app, run_app, played_app.
    destruct (play_one st s q Hwf Hs Hover Hq)
      as (Hpl & Hq1 & Hwf1 & Hb1 & He1 & _).
    destruct (IH _ Hwf1 ltac:(rewrite Hb1; exact Hs) ltac:(lia) Hq1)
      as (Hpl2 & Hq2 & He2 & Hwf2).
    rewrite Hpl, Hpl2. auto.
Qed.

Lemma idle_ticks n : forall st,
  buffer_free_pos st = buffer_cur_pos st ->
  elapsed_piezo_time st = 0 -> piezo_duration st = 0 ->
  nvic_tim3_irq (hw st) = false ->
  run (repeat Tick n) st = st.
Proof.
  induction n as [|n IH]; intros st H1 H2 H3 H4; [reflexivity|].
  simpl. rewrite idle_tick by assumption. apply IH; assumption.
Qed.

Lemma empty_queue_cursors st :
  wf st -> queue_contents st = [] -> buffer_free_pos st = buffer_cur_pos st.
Proof.
  intros Hwf Hq. apply (occupancy_zero st Hwf).
  pose proof (occupancy_range st) as Hr.
  apply (f_equal (@length _)) in Hq. unfold queue_contents in Hq.
  rewrite length_map, length_seq in Hq. cbn [length] in Hq. lia.
Qed.

Lemma empty_cursors_queue st :
  buffer_free_pos st = buffer_cur_pos st -> queue_contents st = [].
Proof.
  intros Heq. unfold queue_contents, occupancy. rewrite Heq, Z.sub_diag. reflexivity.
Qed.

Lemma played_out_stays k st :
  wf st -> played_out st -> played_out (run (repeat Tick k) st).
Proof.
  intros Hwf [Hq He]. destruct k as [|k]; [split; assumption|].
  pose proof (empty_queue_cursors st Hwf Hq) as Heq.
  destruct (piezo_tick_empty st He Heq) as (Hirq & He0 & Hd0 & Hf & Hc & _).
  cbn [repeat run fold_left step]. fold (run (repeat Tick k) (piezo_tick st)).
  rewrite idle_ticks by congruence.
  split; [apply empty_cursors_queue; congruence | lia].
Qed.

Lemma not_played_out_before l : forall st k,
  wf st -> Forall is_sample (sample_buffer st) ->
  piezo_duration st <= elapsed_piezo_time st ->
  queue_contents st = l ->
  (k < play_ticks l)%nat ->
  ~ played_out (run (repeat Tick k) st).
Proof.
  induction l as [|s q IH]; intros st k Hwf Hs Hover Hq Hk; [simpl in Hk; lia|].
  cbn [play_ticks fold_right] in Hk. fold (play_ticks q) in Hk.
  destruct (play_one st s q Hwf Hs Hover Hq) as (_ & Hq1 & Hwf1 & Hb1 & He1 & _).
  destruct (Nat.lt_ge_cases k (S (Z.to_nat (duration s)))) as [Hin|Hout].
  - (* the sample is waiting or sounding *)
    destruct k as [|k].
    + intros [Hq0 _]. simpl in Hq0. congruence.
    + destruct (queue_head_dequeued st s q Hwf Hover Hq) as [Hd _].
      assert (Hne : buffer_free_pos st <> buffer_cur_pos st).
      { intros Heq. apply empty_cursors_queue in Heq. congruence. }
      destruct (piezo_tick_dequeue st Hover Hne) as (Hd' & He & Hdur & _).
      assert (Hps : read_sample (buffer_cur_pos st) st = s) by congruence.
      rewrite Hps in Hdur.
      assert (Hrange : 0 <= duration s < 65536).
      { rewrite <- Hps. apply read_sample_is_sample, Hs. }
      cbn [repeat run fold_left step]. fold (run (repeat Tick k) (piezo_tick st)).
      destruct (ticks_while_sounding k (piezo_tick st)) as [Hrun _]; [lia | lia | lia |].
      rewrite Hrun. intros [_ Hdone]. simpl in Hdone. lia.
  - (* the sample is over: the rest of the queue *)
    replace k with (S (Z.to_nat (duration s)) + (k - S (Z.to_nat (duration s))))%nat
      by lia.
    rewrite repeat_app, run_app.
    apply (IH _ _ Hwf1); [rewrite Hb1; exact Hs | lia | exact Hq1 | lia].
Qed.

(** X16: starting when the current note is over, the queue is played in
    order, and playing takes exactly one tick per sample plus one tick per
    millisecond of duration: after k ticks the queue is empty and the last
    note has run its duration if and only if k is at least that number.
    One tick later the interrupt is masked and both counters are 0. *)
Theorem X16_queue_plays_in_its_time st :
  wf st -> Forall is_sample (sample_buffer st) ->
  piezo_duration st <= elapsed_piezo_time st ->
  let n := play_ticks (queue_contents st) in
  played (repeat Tick n) st = queue_contents st /\
  (forall k, played_out (run (repeat Tick k) st) <-> (n <= k)%nat) /\
  nvic_tim3_irq (hw (run (repeat Tick (S n)) st)) = false /\
  elapsed_piezo_time (run (repeat Tick (S n)) st) = 0 /\
  piezo_duration (run (repeat Tick (S n)) st) = 0.
Proof.
  intros Hwf Hs Hover. cbv zeta.
  destruct (play_all (queue_contents st) st Hwf Hs Hover eq_refl)
    as (Hpl & Hq & He & Hwf').
  split; [exact Hpl | split].
  - intros k. split.
    + intros Hdone. destruct (Nat.le_gt_cases (play_ticks (queue_contents st)) k)
        as [Hle|Hlt]; [exact Hle|].
      exfalso. exact (not_played_out_before _ st k Hwf Hs Hover eq_refl Hlt Hdone).
    + intros Hle.
      replace k with (play_ticks (queue_contents st)
                      + (k - play_ticks (queue_contents st)))%nat by lia.
      rewrite repeat_app, run_app.
      apply played_out_stays; [exact Hwf' | split; assumption].
  - replace (S (play_ticks (queue_contents st)))
      with (play_ticks (queue_contents st) + 1)%nat by lia.
    rewrite repeat_app, run_app.
    set (st' := run (repeat Tick (play_ticks (queue_contents st))) st) in *.
    cbn [repeat run fold_left step].
    destruct (piezo_tick_empty _ He (empty_queue_cursors st' Hwf' Hq))
      as (Hirq & He0 & Hd0 & _). auto.
Qed.

Lemma X16_queue_plays_in_its_time_witness :
  play_ticks (queue_contents three_notes) = 12%nat /\
  played (repeat Tick 12) three_notes = queue_contents three_notes /\
  played_out (run (repeat Tick 12) three_notes) /\
  ~ played_out (run (repeat Tick 11) three_notes) /\
  ~ played_out (run (repeat Tick 8) three_notes) /\
  nvic_tim3_irq (hw (run (repeat Tick 13) three_notes)) = false.
Proof.
  assert (Hn : play_ticks (queue_contents three_notes) = 12%nat) by by_eval.
  destruct (X16_queue_plays_in_its_time three_notes) as (Hpl & Hiff & Hirq & _).
  - wf_by_eval.
  - apply samples_by_check. vm_compute. reflexivity.
  - by_eval.
  - rewrite Hn in *. split; [reflexivity|]. split; [exact Hpl|].
    split; [apply Hiff; lia|].
    split; [intros H; apply Hiff in H; lia|].
    split; [intros H; apply Hiff in H; lia | exact Hirq].
Defined.

(** ** Filling before the first sample is played *)

(** X17: while the read cursor is at slot 0, as it is from reset until the
    first sample is played, no sequence of [piezo_recv] calls stores
    anything past the array, and the queue afterwards holds the samples it
    held before followed by every admitted sample, in order. *)
Theorem X17_filling_before_first_play evs st :
  wf st -> buffer_cur_pos st = 0 ->
  Forall event_ok evs -> Forall is_recv evs ->
  queue_contents (run evs st) = queue_contents st ++ enqueued evs st /\
  overrun (run evs st) = overrun st /\
  played evs st = [].
Proof.
  intros Hwf Hcp Hok Hrecv.
  destruct (recv_only_inside evs st Hwf Hcp Hok Hrecv) as [Hov Hpl].
  pose proof (fifo_inside_array evs st Hwf Hok Hov) as Hfifo.
  rewrite Hpl in Hfifo. simpl in Hfifo.
  split; [symmetry; exact Hfifo | split; [exact Hov | exact Hpl]].
Qed.

Lemma X17_filling_before_first_play_witness :
  let evs := [Recv 4 note_440; Recv 3 [1; 2; 3]; Recv 20 burst5_bytes] in
  queue_contents (run evs power_on)
    = queue_contents power_on ++ enqueued evs power_on /\
  overrun (run evs power_on) = overrun power_on /\
  played evs power_on = [].
Proof.
  apply (X17_filling_before_first_play
           [Recv 4 note_440; Recv 3 [1; 2; 3]; Recv 20 burst5_bytes] power_on).
  - wf_by_eval.
  - reflexivity.
  - repeat (constructor; [split; [lia | reflexivity]|]). constructor.
  - repeat (constructor; [exact I|]). constructor.
Defined.

(** ** Bursts and runs that stay inside the array *)

(** X18: a burst of a valid length with fewer samples than [free_samples],
    whose copy stays inside the array, is admitted: [piezo_recv] returns
    [false], stores nothing past the array, advances [buffer_free_pos] by
    the sample count modulo the capacity, leaves [buffer_cur_pos] alone
    and lowers [free_samples] by exactly the sample count. *)
Theorem X18_fitting_burst_inside st size data :
  wf st -> 0 < size < 4294967296 -> size mod 4 = 0 ->
  length data = Z.to_nat size ->
  size / 4 < free_samples st ->
  (buffer_free_pos st = buffer_cur_pos st ->
   buffer_free_pos st + size / 4 <= PIEZO_BUFFER_LEN) ->
  let st' := snd (piezo_recv size data st) in
  fst (piezo_recv size data st) = false /\
  overrun st' = overrun st /\
  buffer_free_pos st' = (buffer_free_pos st + size / 4) mod PIEZO_BUFFER_LEN /\
  buffer_cur_pos st' = buffer_cur_pos st /\
  free_samples st' = free_samples st - size / 4.
Proof.
  intros Hwf Hsize Hmod Hdata Hfit Hroom. rewrite <- land_3_mod in Hmod.
  destruct (piezo_recv_cursors st size data Hwf Hsize Hmod Hfit)
    as (Hacc & Hfp & Hcp & _).
  destruct (piezo_recv_buffer st size data Hwf Hsize Hmod Hfit Hdata Hroom)
    as [Hov _].
  cbv zeta. split; [exact Hacc | split; [exact Hov | split; [exact Hfp|]]].
  split; [exact Hcp|].
  rewrite !free_samples_occupancy by (try apply piezo_recv_wf; assumption).
  rewrite occupancy_after_recv by assumption. lia.
Qed.

Lemma X18_fitting_burst_inside_witness :
  let st' := snd (piezo_recv 20 burst5_bytes wrapping) in
  fst (piezo_recv 20 burst5_bytes wrapping) = false /\
  overrun st' = overrun wrapping /\
  buffer_free_pos st'
    = (buffer_free_pos wrapping + 20 / 4) mod PIEZO_BUFFER_LEN /\
  buffer_cur_pos st' = buffer_cur_pos wrapping /\
  free_samples st' = free_samples wrapping - 20 / 4.
Proof.
  apply (X18_fitting_burst_inside wrapping 20 burst5_bytes).
  - wf_by_eval.
  - lia.
  - reflexivity.
  - reflexivity.
  - by_eval.
  - intros H. vm_compute in H. discriminate H.
Defined.

(** X19: along every run of well-formed calls from reset during which
    nothing was stored past the array, the number of samples admitted and
    not yet taken out is at most 31, and the two cursors are equal exactly
    when that number is 0. *)
Theorem X19_occupancy_inside evs :
  Forall event_ok evs ->
  overrun (run evs power_on) = [] ->
  0 <= occupied evs power_on <= PIEZO_BUFFER_LEN - 1 /\
  (buffer_free_pos (run evs power_on) = buffer_cur_pos (run evs power_on)
   <-> occupied evs power_on = 0).
Proof.
  intros Hok _.
  pose proof (run_occupancy evs power_on wf_power_on Hok) as Hrun.
  change (occupancy power_on) with 0 in Hrun. rewrite Z.add_0_l in Hrun.
  rewrite <- Hrun.
  pose proof (occupancy_range (run evs power_on)).
  split; [lia|].
  symmetry. apply occupancy_zero, run_wf, wf_power_on.
Qed.

Lemma X19_occupancy_inside_witness :
  let evs := [Recv 4 note_440; Tick; Recv 20 burst5_bytes; Tick] in
  Forall event_ok evs /\
  overrun (run evs power_on) = [] /\
  0 <= occupied evs power_on <= PIEZO_BUFFER_LEN - 1 /\
  (buffer_free_pos (run evs power_on) = buffer_cur_pos (run evs power_on)
   <-> occupied evs power_on = 0).
Proof.
  assert (Hok : Forall event_ok [Recv 4 note_440; Tick; Recv 20 burst5_bytes; Tick]).
  { repeat constructor; simpl; lia. }
  assert (Hin : overrun (run [Recv 4 note_440; Tick; Recv 20 burst5_bytes; Tick]
                             power_on) = []) by by_eval.
  split; [exact Hok | split; [exact Hin|]].
  apply (X19_occupancy_inside _ Hok Hin).
Defined.
